(** * spore: instance pool, buckets and fleet reconciliation

    A shallow embedding of the Go package [spore] (instance.go and the
    cluster file) and the properties of its specification.

    The Go program works on a garbage-collected heap of [Instance] and
    [InstanceList] objects that point at each other; the embedding keeps
    that heap explicit.  Every Go function becomes a function in a small
    state-and-fault monad over the heap, so that aliasing (one [*Instance]
    held by the index, by the used map and by a ring at once) is visible. *)

From stdpp Require Import gmap strings list fin_maps.
From Stdlib Require Import ZArith Lia.

Local Open Scope string_scope.
Local Open Scope list_scope.
Local Open Scope Z_scope.

(** ** Machine integers *)

Definition min_int64 : Z := - 2 ^ 63.
Definition max_int64 : Z := 2 ^ 63 - 1.

(** Go's [int] and [int64] wrap around silently on overflow. *)
Definition wrap64 (z : Z) : Z := (z + 2 ^ 63) mod 2 ^ 64 - 2 ^ 63.

Definition in_int64 (z : Z) : Prop := min_int64 <= z <= max_int64.

(** ** The provider's record types

    Only the fields the package reads are kept. *)

Module ecs.

Record InstanceAttributesType := mkAttrs {
  InstanceId : string;
  ImageId : string;
  Status : string
}.

Record DiskItemType := mkDisk {
  DiskId : string;
  (* the field DiskItemType.InstanceId: the instance the disk is attached to *)
  DiskInstanceId : string
}.

Record ResourceItemType := mkResource {
  ResourceId : string
}.

(** The zero values [new(Instance)] starts from. *)
Definition zeroAttrs : InstanceAttributesType := mkAttrs "" "" "".
Definition zeroDisk : DiskItemType := mkDisk "" "".

(** The calls of the provider client that have an effect, and the pause
    [time.Sleep] between two of them. *)
Inductive call :=
| RemoveTags (resourceId : string)
| AddTags (resourceId : string)
| ReInitDisk (diskId : string)
| StartInstance (instanceId : string)
| StopInstance (instanceId : string) (force : bool)
| Sleep (seconds : Z).

End ecs.

Definition error := string.

(** The provider is an oracle: given the calls issued so far and the next
    call it answers [None] (a nil error) or [Some err]. *)
Definition client := list ecs.call → ecs.call → option error.

(** ** Heap objects *)

Definition loc := nat.   (* the address of an Instance *)
Definition lref := nat.  (* the address of an InstanceList *)

(** A [*Instance]: [None] is nil. *)
Definition ptr := option loc.

Record Instance := mkInstance {
  Attrs : ecs.InstanceAttributesType;
  Disk : ecs.DiskItemType;
  next : ptr;
  prev : ptr;
  list_ : option lref
}.

Record InstanceList := mkInstanceList {
  mu : bool;        (* sync.Mutex: true while held *)
  root : ptr;
  size_ : Z
}.

Definition zeroInstance : Instance :=
  mkInstance ecs.zeroAttrs ecs.zeroDisk None None None.

Definition zeroInstanceList : InstanceList := mkInstanceList false None 0.

Record store := mkStore {
  insts : gmap loc Instance;
  lists : gmap lref InstanceList;
  trace : list ecs.call
}.

Definition set_insts (f : gmap loc Instance → gmap loc Instance) (s : store) : store :=
  mkStore (f (insts s)) (lists s) (trace s).
Definition set_lists (f : gmap lref InstanceList → gmap lref InstanceList) (s : store) : store :=
  mkStore (insts s) (f (lists s)) (trace s).
Definition set_trace (f : list ecs.call → list ecs.call) (s : store) : store :=
  mkStore (insts s) (lists s) (f (trace s)).

Definition with_next (v : ptr) (i : Instance) : Instance :=
  mkInstance (Attrs i) (Disk i) v (prev i) (list_ i).
Definition with_prev (v : ptr) (i : Instance) : Instance :=
  mkInstance (Attrs i) (Disk i) (next i) v (list_ i).
Definition with_list (v : option lref) (i : Instance) : Instance :=
  mkInstance (Attrs i) (Disk i) (next i) (prev i) v.
Definition with_Attrs (v : ecs.InstanceAttributesType) (i : Instance) : Instance :=
  mkInstance v (Disk i) (next i) (prev i) (list_ i).
Definition with_Disk (v : ecs.DiskItemType) (i : Instance) : Instance :=
  mkInstance (Attrs i) v (next i) (prev i) (list_ i).
Definition with_Status (v : string) (a : ecs.InstanceAttributesType) : ecs.InstanceAttributesType :=
  ecs.mkAttrs (ecs.InstanceId a) (ecs.ImageId a) v.

Definition with_mu (v : bool) (l : InstanceList) : InstanceList :=
  mkInstanceList v (root l) (size_ l).
Definition with_root (v : ptr) (l : InstanceList) : InstanceList :=
  mkInstanceList (mu l) v (size_ l).
Definition with_size (v : Z) (l : InstanceList) : InstanceList :=
  mkInstanceList (mu l) (root l) v.

(** ** The monad: heap state, and the ways a Go call fails to return *)

Inductive fault :=
| NilDeref    (* panic: nil pointer dereference *)
| Dangling    (* an address that holds no object; never arises from Go code *)
| Deadlock    (* Lock on a mutex the caller already holds *)
| Diverge.    (* a loop that never meets its exit test *)

Inductive res (A : Type) :=
| Ok (a : A) (s : store)
| Fault (f : fault).
Arguments Ok {A} a s.
Arguments Fault {A} f.

Definition M (A : Type) := store → res A.

#[global] Instance M_ret : MRet M := fun A a s => Ok a s.
#[global] Instance M_bind : MBind M := fun A B k m s =>
  match m s with
  | Ok a s' => k a s'
  | Fault f => Fault f
  end.
Definition raise {A} (f : fault) : M A := fun _ => Fault f.
Definition ret {A} (a : A) : M A := mret a.

(** *** Primitive heap actions *)

(** [*p] for reading. *)
Definition load (p : ptr) : M Instance := fun s =>
  match p with
  | None => Fault NilDeref
  | Some a => match insts s !! a with
              | Some i => Ok i s
              | None => Fault Dangling
              end
  end.

(** [p.field = v] *)
Definition modify (p : ptr) (f : Instance → Instance) : M unit := fun s =>
  match p with
  | None => Fault NilDeref
  | Some a => match insts s !! a with
              | Some i => Ok tt (set_insts <[a := f i]> s)
              | None => Fault Dangling
              end
  end.

(** [new(Instance)] *)
Definition new_Instance : M loc := fun s =>
  let a := fresh (dom (insts s)) in
  Ok a (set_insts <[a := zeroInstance]> s).

(** [new(InstanceList)] *)
Definition new_InstanceList : M lref := fun s =>
  let l := fresh (dom (lists s)) in
  Ok l (set_lists <[l := zeroInstanceList]> s).

Definition loadL (l : lref) : M InstanceList := fun s =>
  match lists s !! l with
  | Some L => Ok L s
  | None => Fault Dangling
  end.

Definition modifyL (l : lref) (f : InstanceList → InstanceList) : M unit := fun s =>
  match lists s !! l with
  | Some L => Ok tt (set_lists <[l := f L]> s)
  | None => Fault Dangling
  end.

(** [l.Lock()]: with a single thread of control a held mutex is never
    released by anyone else. *)
Definition Lock (l : lref) : M unit :=
  L ← loadL l;
  if mu L then raise Deadlock else modifyL l (with_mu true).

Definition Unlock (l : lref) : M unit := modifyL l (with_mu false).

Definition ptr_eqb (p q : ptr) : bool := bool_decide (p = q).

(** ** instance.go: InstanceList *)

(** [Init]; the deferred [Unlock] runs last. *)
Definition Init (l : lref) : M lref :=
  Lock l ;;
  r ← new_Instance ;
  modifyL l (with_root (Some r)) ;;
  modify (Some r) (with_next (Some r)) ;;
  modify (Some r) (with_prev (Some r)) ;;
  modifyL l (with_size 0) ;;
  Unlock l ;;
  ret l.

Definition NewInstanceList : M lref :=
  l ← new_InstanceList ;
  Init l.

Definition Len (l : lref) : M Z :=
  L ← loadL l ;
  ret (size_ L).

(** [lazyInit] takes the lock and, still holding it, calls [Init], which
    takes it again. *)
Definition lazyInit (l : lref) : M unit :=
  Lock l ;;
  L ← loadL l ;
  r ← load (root L) ;
  (if bool_decide (next r = None) then (Init l ;; ret tt) else ret tt) ;;
  Unlock l.

Definition insert (l : lref) (e at_ : ptr) : M ptr :=
  Lock l ;;
  a ← load at_ ;
  let n := next a in
  modify at_ (with_next e) ;;
  modify e (with_prev at_) ;;
  modify e (with_next n) ;;
  modify n (with_prev e) ;;
  modify e (with_list (Some l)) ;;
  modifyL l (fun L => with_size (wrap64 (size_ L + 1)) L) ;;
  Unlock l ;;
  ret e.

(** The scan of [Push]: [true] when a node with [e]'s identifier is met
    before the root comes round again. *)
Fixpoint Push_scan (fuel : nat) (r n e : ptr) : M bool :=
  match fuel with
  | O => raise Diverge
  | S fuel' =>
      if ptr_eqb n r then ret false
      else
        ni ← load n ;
        ei ← load e ;
        if String.eqb (ecs.InstanceId (Attrs ni)) (ecs.InstanceId (Attrs ei))
        then ret true
        else Push_scan fuel' r (next ni) e
  end.

(** A scan visits each live object at most once before it is back at the
    root; one that takes more steps than there are objects is caught in a
    cycle that misses the root and never ends. *)
Definition scan_bound : M nat := fun s => Ok (S (size (insts s))) s.

Definition Push (l : lref) (e : ptr) : M ptr :=
  lazyInit l ;;
  L ← loadL l ;
  r ← load (root L) ;
  fuel ← scan_bound ;
  dup ← Push_scan fuel (root L) (next r) e ;
  if dup : bool then ret None
  else
    L ← loadL l ;
    r ← load (root L) ;
    insert l e (prev r).

Definition Remove (l : lref) (e : ptr) : M ptr :=
  Lock l ;;
  ei ← load e ;
  modify (prev ei) (with_next (next ei)) ;;
  ei ← load e ;
  modify (next ei) (with_prev (prev ei)) ;;
  modify e (with_next None) ;;
  modify e (with_prev None) ;;
  modify e (with_list None) ;;
  modifyL l (fun L => with_size (wrap64 (size_ L - 1)) L) ;;
  Unlock l ;;
  ret e.

Fixpoint Find_scan (fuel : nat) (l : lref) (r n : ptr) (imageId : string) : M ptr :=
  match fuel with
  | O => raise Diverge
  | S fuel' =>
      if ptr_eqb n r then ret None
      else
        ni ← load n ;
        if String.eqb (ecs.ImageId (Attrs ni)) imageId
        then Remove l n
        else Find_scan fuel' l r (next ni) imageId
  end.

Definition Find (l : lref) (imageId : string) : M ptr :=
  L ← loadL l ;
  r ← load (root L) ;
  fuel ← scan_bound ;
  Find_scan fuel l (root L) (next r) imageId.

(** ** instance.go: the provider-facing operations of an Instance *)

(** One call of the provider client: the oracle answers, the call is
    appended to the trace. *)
Definition provider_call (cl : client) (c : ecs.call) : M (option error) := fun s =>
  Ok (cl (trace s) c) (set_trace (fun t => (t ++ [c])%list) s).

(** [time.Sleep(n * time.Second)] *)
Definition sleep (seconds : Z) : M unit := fun s =>
  Ok tt (set_trace (fun t => (t ++ [ecs.Sleep seconds])%list) s).

Definition err_not_stopped : error := "Not stopped instance not support start action".
Definition err_not_running : error := "Not running instance not support stop action".

Definition Start (cl : client) (instance : ptr) : M (option error) :=
  i ← load instance ;
  if negb (String.eqb (ecs.Status (Attrs i)) "Stopped")
  then ret (Some err_not_stopped)
  else
    (* remove used tag; the result of RemoveTags is dropped *)
    provider_call cl (ecs.RemoveTags (ecs.InstanceId (Attrs i))) ;;
    (* reinit disk *)
    err ← provider_call cl (ecs.ReInitDisk (ecs.DiskId (Disk i))) ;
    match err with
    | Some e => ret (Some e)
    | None =>
        sleep 2 ;;
        provider_call cl (ecs.StartInstance (ecs.InstanceId (Attrs i)))
    end.

Definition Stop (cl : client) (instance : ptr) : M (option error) :=
  i ← load instance ;
  if negb (String.eqb (ecs.Status (Attrs i)) "Running")
  then ret (Some err_not_running)
  else
    provider_call cl (ecs.RemoveTags (ecs.InstanceId (Attrs i))) ;;
    provider_call cl (ecs.StopInstance (ecs.InstanceId (Attrs i)) true).

Definition SetUsedTag (cl : client) (instance : ptr) : M (option error) :=
  i ← load instance ;
  provider_call cl (ecs.AddTags (ecs.InstanceId (Attrs i))).

(** ** The delayer

    [time.Duration] is an int64.  The random source [*rand.Rand] belongs
    to math/rand: it is a state [Rand] with the operation [Int63n], which
    for [n > 0] returns a value in [[0, n)] and the next state. *)

Section Delayer.

Variable Rand : Type.
Variable Int63n : Rand → Z → Z * Rand.

Record delayer := mkDelayer {
  rangeMin : Z;
  rangeMax : Z;
  r : Rand
}.

Definition newDelayer (rangeMin rangeMax : Z) (seed : Rand) : delayer :=
  mkDelayer rangeMin rangeMax seed.

(** [Wait]: the period handed to [time.After], and the delayer with its
    source advanced. *)
Definition Wait (d : delayer) : Z * delayer :=
  let waitPeriod := rangeMin d in
  let delta := wrap64 (rangeMax d - rangeMin d) in
  if 0 <? delta
  then let '(v, r') := Int63n (r d) delta in
       (wrap64 (waitPeriod + v), mkDelayer (rangeMin d) (rangeMax d) r')
  else (waitPeriod, d).

End Delayer.

Arguments rangeMin {Rand} d.
Arguments rangeMax {Rand} d.
Arguments r {Rand} d.
Arguments mkDelayer {Rand} rangeMin rangeMax r.
Arguments newDelayer {Rand} rangeMin rangeMax seed.
Arguments Wait {Rand} Int63n d.

(** ** The cluster *)

(** The fields [stopCh] and [refreshDelayer] only drive the background
    loop and are left out.  A Go map holds [*Instance] values; the program
    never stores nil in one. *)
Record Cluster := mkCluster {
  starting : lref;
  avavilable : lref;
  stopping : lref;
  used : gmap string loc;
  disks : list ecs.DiskItemType;
  instances : gmap string loc
}.

Definition with_used (v : gmap string loc) (c : Cluster) : Cluster :=
  mkCluster (starting c) (avavilable c) (stopping c) v (disks c) (instances c).
Definition with_disks (v : list ecs.DiskItemType) (c : Cluster) : Cluster :=
  mkCluster (starting c) (avavilable c) (stopping c) (used c) v (instances c).
Definition with_instances (v : gmap string loc) (c : Cluster) : Cluster :=
  mkCluster (starting c) (avavilable c) (stopping c) (used c) (disks c) v.

(** A paged listing of the provider: the answer to the first request and
    the answers to the requests for the pages after it.  [NextPage] of the
    pagination result is non-nil exactly while pages remain. *)
Record paged (A : Type) := mkPaged {
  first_page : error + list A;
  more_pages : list (error + list A)
}.
Arguments mkPaged {A} first_page more_pages.
Arguments first_page {A} p.
Arguments more_pages {A} p.

(** The loop [for { nextPage := pagination.NextPage() ... }]: the items
    gathered so far and the error that stopped the loop, if any. *)
Fixpoint next_pages {A} (acc : list A) (ps : list (error + list A)) : list A * option error :=
  match ps with
  | [] => (acc, None)
  | inl e :: _ => (acc, Some e)
  | inr items :: ps' => next_pages (acc ++ items)%list ps'
  end.

(** find instance based on instance id *)
Definition Cluster_Find (c : Cluster) (instanceId : string) : ptr :=
  instances c !! instanceId.

(** get a instance from running instance based on image *)
Definition GetInstance (cl : client) (c : Cluster) (imageId : string) : M (ptr * Cluster) :=
  instance ← Find (avavilable c) imageId ;
  match instance with
  | None => ret (None, c)
  | Some a =>
      err ← SetUsedTag cl (Some a) ;
      match err with
      | Some _ =>
          Push (avavilable c) (Some a) ;;
          ret (None, c)
      | None =>
          i ← load (Some a) ;
          ret (Some a, with_used (<[ecs.InstanceId (Attrs i) := a]> (used c)) c)
      end
  end.

Definition err_not_found : error := "not found instance".
Definition err_not_used : error := "not used instance can not been stop".

(** The goroutine [StopInstance] launches: three seconds later it marks
    the instance Stopped, tries to start it and puts the old status back
    when that fails. *)
Definition StopInstance_restart (cl : client) (instance : ptr) : M unit :=
  sleep 3 ;;
  i ← load instance ;
  let status := ecs.Status (Attrs i) in
  modify instance (fun i => with_Attrs (with_Status "Stopped" (Attrs i)) i) ;;
  err ← Start cl instance ;
  match err with
  | Some _ => modify instance (fun i => with_Attrs (with_Status status (Attrs i)) i)
  | None => ret tt
  end.

(** stop a instance with running status; the goroutine is not part of the
    call: it is [StopInstance_restart] on the instance, run later. *)
Definition StopInstance (cl : client) (c : Cluster) (instanceId : string) : M (option error * Cluster) :=
  match instances c !! instanceId with
  | None => ret (Some err_not_found, c)
  | Some _ =>
      match used c !! instanceId with
      | None => ret (Some err_not_used, c)
      | Some instance =>
          err ← Stop cl (Some instance) ;
          match err with
          | Some e => ret (Some e, c)
          | None =>
              i ← load (Some instance) ;
              ret (None, with_used (delete (ecs.InstanceId (Attrs i)) (used c)) c)
          end
      end
  end.

(** get all disks *)
Definition RefreshDisks (c : Cluster) (listing : paged ecs.DiskItemType) : option error * Cluster :=
  match first_page listing with
  | inl e => (Some e, c)
  | inr ds =>
      let '(all, err) := next_pages ds (more_pages listing) in
      (err, with_disks all c)
  end.

(** *** RefreshInstances *)

(** [if instance.list != nil { instance.list.Remove(instance) }] *)
Definition unlink (instance : ptr) : M unit :=
  i ← load instance ;
  match list_ i with
  | Some l => Remove l instance ;; ret tt
  | None => ret tt
  end.

(** The body of [for _, resource := range resources]. *)
Definition reserve_step (c : Cluster) (resource : ecs.ResourceItemType) : M Cluster :=
  let rid := ecs.ResourceId resource in
  match instances c !! rid with
  | None =>
      a ← new_Instance ;
      ret (with_used (<[rid := a]> (used c)) (with_instances (<[rid := a]> (instances c)) c))
  | Some a =>
      (* used instance should not in any list *)
      unlink (Some a) ;;
      ret (with_used (<[rid := a]> (used c)) c)
  end.

(** The three cases Running (not used), Starting and Stopping share one
    shape: push when the instance is in no list, move it when it is in
    another list, leave it when it is in [target] already. *)
Definition place (target : lref) (instance : ptr) : M unit :=
  i ← load instance ;
  match list_ i with
  | None => Push target instance ;; ret tt
  | Some l =>
      if bool_decide (l ≠ target)
      then Remove l instance ;; Push target instance ;; ret tt
      else ret tt
  end.

(** The body of [for _, node := range instances]. *)
Definition status_step (cl : client) (c : Cluster) (node : ecs.InstanceAttributesType) : M Cluster :=
  a ← match instances c !! ecs.InstanceId node with
      | Some a => ret a
      | None => new_Instance
      end ;
  let instance : ptr := Some a in
  (* find instance disk id *)
  match List.find (fun disk => String.eqb (ecs.DiskInstanceId disk) (ecs.InstanceId node)) (disks c) with
  | Some disk => modify instance (with_Disk disk)
  | None => ret tt
  end ;;
  i ← load instance ;
  if bool_decide (String.length (ecs.DiskId (Disk i)) = 0%nat)
  then ret c (* continue *)
  else
    modify instance (with_Attrs node) ;;
    let c := with_instances (<[ecs.InstanceId node := a]> (instances c)) c in
    let status := ecs.Status node in
    if String.eqb status "Running" then
      match used c !! ecs.InstanceId node with
      | None => place (avavilable c) instance ;; ret c
      | Some _ => ret (with_used (<[ecs.InstanceId node := a]> (used c)) c)
      end
    else if String.eqb status "Starting" then
      place (starting c) instance ;; ret c
    else if String.eqb status "Stopping" then
      place (stopping c) instance ;; ret c
    else if String.eqb status "Stopped" then
      unlink instance ;;
      Start cl instance ;;   (* the error is logged only *)
      ret c
    else ret c.

Fixpoint foldM {A B} (f : B → A → M B) (b : B) (xs : list A) : M B :=
  match xs with
  | [] => ret b
  | x :: xs' => b' ← f b x ; foldM f b' xs'
  end.

(** The two loops of [RefreshInstances] once both listings are in hand. *)
Definition reserve_all (c : Cluster) (resources : list ecs.ResourceItemType) : M Cluster :=
  foldM reserve_step c resources.

Definition status_all (cl : client) (c : Cluster) (nodes : list ecs.InstanceAttributesType) : M Cluster :=
  foldM (status_step cl) c nodes.

Definition RefreshInstances (cl : client) (c : Cluster)
    (instanceListing : paged ecs.InstanceAttributesType)
    (tagListing : paged ecs.ResourceItemType) : M (option error * Cluster) :=
  match first_page instanceListing with
  | inl e => ret (Some e, c)
  | inr page1 =>
      match next_pages page1 (more_pages instanceListing) with
      | (_, Some e) => ret (Some e, c)
      | (nodes, None) =>
          (* query all used instance based on tag *)
          match first_page tagListing with
          | inl e => ret (Some e, c)
          | inr rpage1 =>
              match next_pages rpage1 (more_pages tagListing) with
              | (_, Some e) => ret (Some e, c)
              | (resources, None) =>
                  (* all used instance *)
                  c ← reserve_all c resources ;
                  (* check instance status *)
                  c ← status_all cl c nodes ;
                  ret (None, c)
              end
          end
      end
  end.

(** [NewCluster] up to the launch of the background loop: on success the
    cluster, else the error. *)
Definition NewCluster (cl : client)
    (diskListing : paged ecs.DiskItemType)
    (instanceListing : paged ecs.InstanceAttributesType)
    (tagListing : paged ecs.ResourceItemType) : M (error + Cluster) :=
  l1 ← NewInstanceList ;
  l2 ← NewInstanceList ;
  l3 ← NewInstanceList ;
  let cluster := mkCluster l1 l2 l3 ∅ [] ∅ in
  match RefreshDisks cluster diskListing with
  | (Some e, _) => ret (inl e)
  | (None, cluster) =>
      '(err, cluster) ← RefreshInstances cl cluster instanceListing tagListing ;
      match err with
      | Some e => ret (inl e)
      | None => ret (inr cluster)
      end
  end.

(** One round of [refreshLoop] after the delayer has fired; both errors
    are dropped. *)
Definition refreshLoop_round (cl : client) (c : Cluster)
    (diskListing : paged ecs.DiskItemType)
    (instanceListing : paged ecs.InstanceAttributesType)
    (tagListing : paged ecs.ResourceItemType) : M Cluster :=
  let '(_, c) := RefreshDisks c diskListing in
  '(_, c) ← RefreshInstances cl c instanceListing tagListing ;
  ret c.

(** *** Reading a bucket off the heap *)

(** The nodes met from [n] along [next] until [r]; [None] when the walk
    leaves the heap or runs out of steps. *)
Fixpoint walk (fuel : nat) (h : gmap loc Instance) (r n : ptr) : option (list loc) :=
  match fuel with
  | O => None
  | S fuel' =>
      if ptr_eqb n r then Some []
      else match n with
           | None => None
           | Some a =>
               i ← h !! a ;
               rest ← walk fuel' h r (next i) ;
               Some (a :: rest)
           end
  end.

(** The members of bucket [l], head first. *)
Definition members (s : store) (l : lref) : option (list loc) :=
  L ← lists s !! l ;
  a ← root L ;
  i ← insts s !! a ;
  walk (S (size (insts s))) (insts s) (root L) (next i).

Definition empty_store : store := mkStore ∅ ∅ [].
(** * Properties *)
Arguments wrap64 : simpl never.

Definition fnext (s : store) (a : loc) : option ptr := next <$> insts s !! a.
Definition fprev (s : store) (a : loc) : option ptr := prev <$> insts s !! a.
Definition flist (s : store) (a : loc) : option (option lref) := list_ <$> insts s !! a.
Definition fattrs (s : store) (a : loc) : option ecs.InstanceAttributesType := Attrs <$> insts s !! a.
Definition fdisk (s : store) (a : loc) : option ecs.DiskItemType := Disk <$> insts s !! a.

Definition adj (s : store) (a b : loc) : Prop :=
  fnext s a = Some (Some b) ∧ fprev s b = Some (Some a).

Fixpoint chain (s : store) (p : loc) (xs : list loc) (q : loc) : Prop :=
  match xs with
  | [] => adj s p q
  | x :: xs' => adj s p x ∧ chain s x xs' q
  end.

Fixpoint lastd (p : loc) (xs : list loc) : loc :=
  match xs with
  | [] => p
  | x :: xs' => lastd x xs'
  end.

(** [bucket s l r xs]: [l] is an initialised, unlocked list whose sentinel
    is [r] and whose ring holds the nodes [xs], head first; the population
    count is the number of nodes. *)
Record bucket (s : store) (l : lref) (r : loc) (xs : list loc) : Prop := mkBucket {
  bucket_list : lists s !! l = Some (mkInstanceList false (Some r) (Z.of_nat (length xs)));
  bucket_fits : Z.of_nat (length xs) <= max_int64;
  bucket_ring : chain s r xs r;
  bucket_nodup : NoDup (r :: xs);
  bucket_owner : ∀ x, x ∈ xs → flist s x = Some (Some l)
}.

(** What an operation on the nodes [touched] leaves alone. *)
Record frame (s s' : store) (l : lref) (touched : list loc) : Prop := mkFrame {
  frame_trace : trace s' = trace s;
  frame_lists : ∀ l', l' ≠ l → lists s' !! l' = lists s !! l';
  frame_attrs : ∀ x, fattrs s' x = fattrs s x;
  frame_disk : ∀ x, fdisk s' x = fdisk s x;
  frame_next : ∀ x, x ∉ touched → fnext s' x = fnext s x;
  frame_prev : ∀ x, x ∉ touched → fprev s' x = fprev s x;
  frame_list : ∀ x, x ∉ touched → flist s' x = flist s x
}.

Definition image (s : store) (x : loc) : option string := ecs.ImageId <$> fattrs s x.
Definition ident (s : store) (x : loc) : option string := ecs.InstanceId <$> fattrs s x.

(** ** Sample states *)

Definition sample_instance (id img status disk : string) : Instance :=
  mkInstance (ecs.mkAttrs id img status) (ecs.mkDisk disk id) None None None.

(** A bucket that received the instances i-a, i-b and i-c in this order. *)
Definition sample_bucket_prog : M lref :=
  l ← NewInstanceList ;
  a ← new_Instance ;
  modify (Some a) (λ _, sample_instance "i-a" "img-1" "Running" "d-a") ;;
  b ← new_Instance ;
  modify (Some b) (λ _, sample_instance "i-b" "img-2" "Running" "d-b") ;;
  c ← new_Instance ;
  modify (Some c) (λ _, sample_instance "i-c" "img-3" "Running" "d-c") ;;
  Push l (Some a) ;; Push l (Some b) ;; Push l (Some c) ;;
  d ← new_Instance ;
  modify (Some d) (λ _, sample_instance "i-d" "img-1" "Stopped" "d-d") ;;
  ret l.

Definition state_of {A} (r : res A) : store :=
  match r with
  | Ok _ s => s
  | Fault _ => mkStore ∅ ∅ []
  end.

Definition sample_store : store := state_of (sample_bucket_prog empty_store).

(** A provider that accepts every call, and one that refuses every call. *)
Definition ok_client : client := λ _ _, None.
Definition failing_client : client := λ _ _, Some "provider error".

Definition one_page {A} (items : list A) : paged A := mkPaged (inr items) [].

(** The cluster whose available bucket is the sample bucket. *)
Definition sample_cluster : Cluster :=
  mkCluster 1%nat 0%nat 2%nat ∅ [] (list_to_map [("i-a", 1%nat); ("i-b", 2%nat); ("i-c", 3%nat)]).

(** A store that holds one zero-value [InstanceList] at address 0. *)
Definition zero_bucket_store : store := mkStore ∅ {[ 0%nat := zeroInstanceList ]} [].

(** A random source without state whose [Int63n n] always yields [n - 1]. *)
Definition top_draw (g : unit) (n : Z) : Z * unit := (n - 1, g).

Definition sample_delayer : delayer unit := newDelayer 1000 5000 tt.

(** A delayer whose span [rangeMax - rangeMin] is [2 ^ 63]. *)
Definition overflow_delayer : delayer unit := newDelayer (-1) max_int64 tt.

(** Listings of one reconciliation pass. *)
Definition disk_of_i1 : paged ecs.DiskItemType := one_page [ecs.mkDisk "d-1" "i-1"].
Definition no_disks : paged ecs.DiskItemType := one_page [].
Definition no_tags : paged ecs.ResourceItemType := one_page [].
Definition tag_of_i1 : paged ecs.ResourceItemType := one_page [ecs.mkResource "i-1"].
Definition i1_reported (status : string) : paged ecs.InstanceAttributesType :=
  one_page [ecs.mkAttrs "i-1" "img" status].

(** The sample store with one more instance, i-e, whose image no other
    instance has; it is live at address 5 and in no list. *)
Definition sample_store2 : store :=
  state_of ((e ← new_Instance ;
             modify (Some e) (λ _, sample_instance "i-e" "img-5" "Running" "d-e")) sample_store).

(** What the two paging loops of a listing deliver: every item of every
    page, or the first error. *)
Definition fetch {A} (p : paged A) : error + list A :=
  match first_page p with
  | inl e => inl e
  | inr page1 =>
      match next_pages page1 (more_pages p) with
      | (_, Some e) => inl e
      | (all, None) => inr all
      end
  end.

(** The sample store with a second, empty list at address 1. *)
Definition sample_store3 : store := state_of (NewInstanceList sample_store).

(** The [switch] of the status loop, for the record [a] of [node] once
    its disk and attributes have been stored. *)
Definition dispatch (cl : client) (c : Cluster) (node : ecs.InstanceAttributesType) (a : loc) : M Cluster :=
  let instance : ptr := Some a in
  let status := ecs.Status node in
  if String.eqb status "Running" then
    match used c !! ecs.InstanceId node with
    | None => place (avavilable c) instance ;; ret c
    | Some _ => ret (with_used (<[ecs.InstanceId node := a]> (used c)) c)
    end
  else if String.eqb status "Starting" then
    place (starting c) instance ;; ret c
  else if String.eqb status "Stopping" then
    place (stopping c) instance ;; ret c
  else if String.eqb status "Stopped" then
    unlink instance ;;
    Start cl instance ;;
    ret c
  else ret c.

(** The bucket the status loop files a node under, if any: the available
    bucket for a Running instance that is not reserved, the starting and
    the stopping bucket for those two statuses. *)
Definition target_bucket (c : Cluster) (node : ecs.InstanceAttributesType) : option lref :=
  let status := ecs.Status node in
  if String.eqb status "Running" then
    match used c !! ecs.InstanceId node with
    | None => Some (avavilable c)
    | Some _ => None
    end
  else if String.eqb status "Starting" then Some (starting c)
  else if String.eqb status "Stopping" then Some (stopping c)
  else None.

Definition resolve_disk (c : Cluster) (node : ecs.InstanceAttributesType) : option ecs.DiskItemType :=
  List.find (fun disk => String.eqb (ecs.DiskInstanceId disk) (ecs.InstanceId node)) (disks c).

(** The sample cluster with a cached disk list: the disk of i-b, which
    the index knows, and the disk of i-9, which it does not. *)
Definition sample_cluster_disks : Cluster :=
  with_disks [ecs.mkDisk "d-b" "i-b"; ecs.mkDisk "d-9" "i-9"] sample_cluster.

(** Every record of the index is live, has no disk id, and is in no list. *)
Definition unfiled (c : Cluster) (s : store) : Prop :=
  ∀ id a, instances c !! id = Some a →
    ∃ i, insts s !! a = Some i ∧ ecs.DiskId (Disk i) = "" ∧ list_ i = None.

(** The objects of [s] are objects of [s'], unchanged. *)
Definition kept (s s' : store) : Prop :=
  ∀ x i, insts s !! x = Some i → insts s' !! x = Some i.

(** A random source that counts its draws; [Int63n n] yields [n - 1]. *)
Definition counting_draw (g : nat) (n : Z) : Z * nat := (n - 1, S g).

(** A delayer whose span [rangeMax - rangeMin] is [1 - 2 ^ 64]: the
    int64 difference wraps to 1. *)
Definition wrapped_delayer : delayer nat := newDelayer max_int64 min_int64 0%nat.

(** The disk a record carries once the loop over the cached disk list
    has run: the first listed disk attached to the instance, or else the
    disk the record had. *)
Definition disk_after_lookup (c : Cluster) (node : ecs.InstanceAttributesType) (i : Instance)
    : ecs.DiskItemType :=
  match resolve_disk c node with
  | Some d => d
  | None => Disk i
  end.

(** ** The state of a cluster between two calls *)


(** A well-formed cluster state: the lists [ls] are buckets with
    sentinels [R] and members [X], no object is in two of them, every
    record of the index is live, is no sentinel, is indexed under one
    identifier only, and is a member of the list its [list] field names. *)
Record wf (ls : list lref) (idx : gmap string loc) (s : store)
    (R : lref → loc) (X : lref → list loc) : Prop := mkWf {
  wf_bucket : ∀ l, l ∈ ls → bucket s l (R l) (X l);
  wf_apart : ∀ l l' x, l ∈ ls → l' ∈ ls → l ≠ l' → x ∈ R l :: X l → x ∉ R l' :: X l';
  wf_alive : ∀ id a, idx !! id = Some a → is_Some (insts s !! a);
  wf_root : ∀ id a l, idx !! id = Some a → l ∈ ls → a ≠ R l;
  wf_inj : ∀ id id' a, idx !! id = Some a → idx !! id' = Some a → id = id';
  wf_owner : ∀ id a l, idx !! id = Some a → flist s a = Some (Some l) → l ∈ ls ∧ a ∈ X l
}.









Lemma bind_Ok {A B} (m : M A) (k : A → M B) s a s' :
  m s = Ok a s' → (m ≫= k) s = k a s'.
Proof. intros H. unfold mbind, M_bind. by rewrite H. Qed.

Ltac run1 :=
  first
  [ progress cbn
  | match goal with
    | H : ?m !! ?k = _ |- context [ ?m !! ?k ] => rewrite H
    | |- context [ <[?k := _]> _ !! ?k ] => rewrite lookup_insert_eq
    | |- context [ <[?k := _]> _ !! ?k' ] => rewrite (lookup_insert_ne _ k k') by congruence
    | H : mu _ = _ |- context [ mu _ ] => rewrite H
    | H : next _ = _ |- context [ next _ ] => rewrite H
    | H : prev _ = _ |- context [ prev _ ] => rewrite H
    end ].
Ltac run := repeat run1.

Lemma Remove_fields s l n L i a b :
  lists s !! l = Some L → mu L = false →
  insts s !! n = Some i → prev i = Some a → next i = Some b →
  a ≠ n → b ≠ n → is_Some (insts s !! a) → is_Some (insts s !! b) →
  ∃ s', Remove l (Some n) s = Ok (Some n) s'
    ∧ lists s' = <[l := with_mu false (with_size (wrap64 (size_ L - 1)) L)]> (lists s)
    ∧ trace s' = trace s
    ∧ (∀ x, fnext s' x = if decide (x = n) then Some None
                         else if decide (x = a) then Some (Some b) else fnext s x)
    ∧ (∀ x, fprev s' x = if decide (x = n) then Some None
                         else if decide (x = b) then Some (Some a) else fprev s x)
    ∧ (∀ x, flist s' x = if decide (x = n) then Some None else flist s x)
    ∧ (∀ x, fattrs s' x = fattrs s x)
    ∧ (∀ x, fdisk s' x = fdisk s x).
Proof.
  intros HL Hmu Hn Hp Hx Han Hbn [ia Ha] [ib Hb].
  unfold Remove, Lock, Unlock, loadL, modifyL, load, modify, raise, ret, mbind, M_bind, mret, M_ret.
  assert (Hsz : ∀ (m : gmap lref InstanceList) x y z, <[l:=x]> (<[l:=y]> (<[l:=z]> m)) = <[l:=x]> m).
  { intros. by rewrite !insert_insert_eq. }
  destruct (decide (a = b)) as [->|Hab]; run; (eexists; split; [reflexivity|]);
    cbn; rewrite Hsz; unfold with_mu, with_size; cbn;
    (split; [done|]); (split; [done|]);
    unfold fnext, fprev, flist, fattrs, fdisk; cbn;
    repeat split; intros x; rewrite ?lookup_insert; repeat case_decide; subst; cbn;
    rewrite ?Hn, ?Ha, ?Hb; cbn; try done; try congruence.
Qed.

Lemma insert_fields s l e at_ L ia n0 :
  lists s !! l = Some L → mu L = false →
  insts s !! at_ = Some ia → next ia = Some n0 →
  e ≠ at_ → e ≠ n0 → is_Some (insts s !! e) → is_Some (insts s !! n0) →
  ∃ s', insert l (Some e) (Some at_) s = Ok (Some e) s'
    ∧ lists s' = <[l := with_mu false (with_size (wrap64 (size_ L + 1)) L)]> (lists s)
    ∧ trace s' = trace s
    ∧ (∀ x, fnext s' x = if decide (x = e) then Some (Some n0)
                         else if decide (x = at_) then Some (Some e) else fnext s x)
    ∧ (∀ x, fprev s' x = if decide (x = e) then Some (Some at_)
                         else if decide (x = n0) then Some (Some e) else fprev s x)
    ∧ (∀ x, flist s' x = if decide (x = e) then Some (Some l) else flist s x)
    ∧ (∀ x, fattrs s' x = fattrs s x)
    ∧ (∀ x, fdisk s' x = fdisk s x).
Proof.
  intros HL Hmu Ha Hx Hea Hen [ie He] [i0 H0].
  unfold insert, Lock, Unlock, loadL, modifyL, load, modify, raise, ret, mbind, M_bind, mret, M_ret.
  assert (Hsz : ∀ (m : gmap lref InstanceList) x y z, <[l:=x]> (<[l:=y]> (<[l:=z]> m)) = <[l:=x]> m).
  { intros. by rewrite !insert_insert_eq. }
  destruct (decide (at_ = n0)) as [->|Hab]; simplify_eq; run; (eexists; split; [reflexivity|]);
    cbn; rewrite Hsz; unfold with_mu, with_size; cbn;
    (split; [done|]); (split; [done|]);
    unfold fnext, fprev, flist, fattrs, fdisk; cbn;
    repeat split; intros x; rewrite ?lookup_insert; repeat case_decide; subst; cbn;
    rewrite ?He, ?Ha, ?H0; cbn; try done; try congruence.
Qed.

Lemma lastd_elem p xs : lastd p xs ∈ p :: xs.
Proof.
  revert p. induction xs as [|x xs IH]; intros p; cbn.
  - set_solver.
  - specialize (IH x). set_solver.
Qed.

Lemma lastd_snoc p xs y : lastd p (xs ++ [y]) = y.
Proof. revert p. induction xs as [|x xs IH]; intros p; cbn; auto. Qed.

Lemma chain_app s p xs y ys q :
  chain s p (xs ++ y :: ys) q ↔ chain s p xs y ∧ chain s y ys q.
Proof.
  revert p. induction xs as [|x xs IH]; intros p; cbn.
  - tauto.
  - rewrite IH. tauto.
Qed.

Lemma chain_last s p xs q :
  chain s p xs q →
  fnext s (lastd p xs) = Some (Some q) ∧ fprev s q = Some (Some (lastd p xs)).
Proof.
  revert p. induction xs as [|x xs IH]; intros p; cbn.
  - intros [? ?]; auto.
  - intros [_ H]. auto.
Qed.

Lemma chain_first s p xs q :
  chain s p xs q → fnext s p = Some (Some (hd q xs)).
Proof. destruct xs; cbn; unfold adj; tauto. Qed.

Lemma chain_frame s s' p xs q :
  (∀ x, x ∈ p :: xs → fnext s' x = fnext s x) →
  (∀ x, x ∈ xs ++ [q] → fprev s' x = fprev s x) →
  chain s p xs q → chain s' p xs q.
Proof.
  revert p. induction xs as [|x xs IH]; intros p Hn Hp; cbn; unfold adj.
  - intros [H1 H2]. rewrite Hn, Hp by set_solver. done.
  - intros [[H1 H2] H3]. rewrite Hn, Hp by set_solver. split; [done|].
    apply IH; [| |done]; intros; [apply Hn|apply Hp]; set_solver.
Qed.

Lemma chain_retarget s s' p xs q b :
  NoDup (p :: xs) →
  chain s p xs q →
  (∀ x, x ∈ p :: xs → x ≠ lastd p xs → fnext s' x = fnext s x) →
  (∀ x, x ∈ xs → fprev s' x = fprev s x) →
  fnext s' (lastd p xs) = Some (Some b) →
  fprev s' b = Some (Some (lastd p xs)) →
  chain s' p xs b.
Proof.
  revert p. induction xs as [|x xs IH]; intros p Hnd Hc Hn Hp Ha Hb; cbn in *.
  - done.
  - destruct Hc as [[H1 H2] H3].
    apply NoDup_cons in Hnd as [Hpx Hnd].
    split.
    + split.
      * rewrite Hn; [done|set_solver|]. intros ->. apply Hpx, lastd_elem.
      * rewrite Hp; [done|set_solver].
    + apply IH; auto.
      * intros y Hy Hne. apply Hn; [set_solver|done].
      * intros y Hy. apply Hp. set_solver.
Qed.

(** Every node of a chain is a live object. *)
Lemma chain_alive s p xs q x :
  chain s p xs q → x ∈ p :: xs ++ [q] → is_Some (insts s !! x).
Proof.
  revert p. induction xs as [|y xs IH]; intros p; cbn; unfold adj, fnext, fprev.
  - intros [H1 H2] Hx.
    assert (x = p ∨ x = q) as [->| ->] by set_solver.
    + destruct (insts s !! p); [eauto|done].
    + destruct (insts s !! q); [eauto|done].
  - intros [[H1 H2] H3] Hx.
    apply elem_of_cons in Hx as [->|Hx].
    + destruct (insts s !! p); [eauto|done].
    + by apply (IH y).
Qed.

Lemma NoDup_ring_split (r : loc) pre n post :
  NoDup (r :: pre ++ n :: post) →
  r ∉ pre ∧ r ≠ n ∧ r ∉ post ∧ n ∉ pre ∧ n ∉ post ∧ NoDup pre ∧ NoDup post
  ∧ (∀ x, x ∈ pre → x ∉ post) ∧ NoDup (r :: pre ++ post).
Proof.
  intros H. apply NoDup_cons in H as [Hr H].
  apply NoDup_app in H as (Hpre & Hd & H).
  apply NoDup_cons in H as [Hn Hpost].
  repeat split; try done; try set_solver.
  apply NoDup_cons. split; [set_solver|].
  apply NoDup_app. repeat split; try done. set_solver.
Qed.

Ltac fld := repeat case_decide; subst; try done; try congruence.

Lemma Remove_bucket s l r pre n post :
  bucket s l r (pre ++ n :: post) →
  ∃ s', Remove l (Some n) s = Ok (Some n) s'
    ∧ bucket s' l r (pre ++ post)
    ∧ fnext s' n = Some None ∧ fprev s' n = Some None ∧ flist s' n = Some None
    ∧ frame s s' l [lastd r pre; n; hd r post].
Proof.
  intros [HL Hfit Hc Hnd Hown].
  pose proof (NoDup_ring_split _ _ _ _ Hnd) as (Hr1 & Hr2 & Hr3 & Hn1 & Hn2 & Hd1 & Hd2 & Hdisj & Hnd').
  apply chain_app in Hc as [C1 C2].
  pose proof (chain_last _ _ _ _ C1) as [Han Hna].
  pose proof (chain_first _ _ _ _ C2) as Hnb.
  assert (Ha_in : lastd r pre ∈ r :: pre) by apply lastd_elem.
  assert (Hb_in : hd r post ∈ post ++ [r]).
  { destruct post; cbn; [apply list_elem_of_singleton; done|apply elem_of_cons; by left]. }
  remember (lastd r pre) as a eqn:Ea. remember (hd r post) as b eqn:Eb.
  assert (Han' : a ≠ n).
  { intros ->. apply elem_of_cons in Ha_in as [?|?]; congruence. }
  assert (Hbn' : b ≠ n).
  { intros ->. apply elem_of_app in Hb_in as [?|Hb]; [done|].
    apply list_elem_of_singleton in Hb. congruence. }
  assert (Hb_pre : b ∉ pre).
  { intros Hb. apply elem_of_app in Hb_in as [?|Hb']; [by apply (Hdisj b)|].
    apply list_elem_of_singleton in Hb'. congruence. }
  assert (Ha_post : a ∉ post).
  { intros Ha. apply elem_of_cons in Ha_in as [?|?]; [congruence|by apply (Hdisj a)]. }
  assert (is_Some (insts s !! a)) as Hsa.
  { unfold fnext in Han. destruct (insts s !! a); [eauto|done]. }
  assert (is_Some (insts s !! b)) as Hsb.
  { eapply (chain_alive _ _ _ _ _ C2). apply elem_of_cons. right. done. }
  unfold fnext in Hnb. unfold fprev in Hna.
  destruct (insts s !! n) as [i|] eqn:Hi; [|done]. cbn in Hnb, Hna.
  destruct (Remove_fields s l n _ i a b HL eq_refl Hi) as (s' & Hrun & HL' & Htr & Fn & Fp & Fl & Fa & Fd);
    try done; try congruence.
  exists s'. split; [done|].
  assert (Hlen : length (pre ++ n :: post) = S (length (pre ++ post))).
  { rewrite !length_app. cbn. lia. }
  assert (Hnd1 : NoDup (r :: pre)) by (apply NoDup_cons; done).
  split; [|split; [|split; [|split]]].
  - split.
    + rewrite HL', lookup_insert_eq. unfold with_mu, with_size; cbn.
      do 2 f_equal. rewrite Hlen in *. unfold wrap64, max_int64 in *.
      rewrite Z.mod_small; lia.
    + rewrite Hlen in Hfit. lia.
    + assert (C1' : chain s' r pre b).
      { apply (chain_retarget s s' r pre n b); auto; rewrite <- ?Ea.
        - intros x Hx Hne. rewrite Fn. fld.
          apply elem_of_cons in Hx as [?|?]; congruence.
        - intros x Hx. rewrite Fp. fld.
        - rewrite Fn. fld.
        - rewrite Fp. fld. }
      destruct post as [|y ys]; cbn in Eb; subst b.
      * by rewrite app_nil_r.
      * apply chain_app. split; [done|].
        destruct C2 as [_ C2]. revert C2. apply chain_frame.
        -- intros x Hx. rewrite Fn.
           assert (x ≠ n) by (clear -Hx Hn2; set_solver).
           assert (x ≠ a) by (clear -Hx Ha_post; set_solver).
           fld.
        -- intros x Hx. rewrite Fp. apply NoDup_cons in Hd2 as [Hy ?].
           assert (x ≠ n) by (clear -Hx Hn2 Hr2; set_solver).
           assert (x ≠ y) by (clear -Hx Hy Hr3; set_solver).
           fld.
    + done.
    + intros x Hx. rewrite Fl.
      assert (x ≠ n) by (clear -Hx Hn1 Hn2; set_solver).
      assert (x ∈ pre ++ n :: post) by (clear -Hx; set_solver).
      case_decide; [done|]. by apply Hown.
  - rewrite Fn. by case_decide.
  - rewrite Fp. by case_decide.
  - rewrite Fl. by case_decide.
  - split; auto.
    + intros l' Hl'. rewrite HL'. by rewrite lookup_insert_ne.
    + intros x Hx. rewrite Fn.
      assert (x ≠ n ∧ x ≠ a) as [? ?] by (clear -Hx; set_solver). fld.
    + intros x Hx. rewrite Fp.
      assert (x ≠ n ∧ x ≠ b) as [? ?] by (clear -Hx; set_solver). fld.
    + intros x Hx. rewrite Fl.
      assert (x ≠ n) by (clear -Hx; set_solver). fld.
Qed.
Lemma alive_length (h : gmap loc Instance) (ys : list loc) :
  NoDup ys → (∀ y, y ∈ ys → is_Some (h !! y)) → (length ys ≤ size h)%nat.
Proof.
  intros Hnd Hal.
  rewrite <- (size_list_to_set (C := gset loc) ys Hnd), <- size_dom.
  apply subseteq_size. intros y Hy. apply elem_of_dom, Hal.
  by apply elem_of_list_to_set in Hy.
Qed.

Lemma bucket_alive s l r xs x : bucket s l r xs → x ∈ r :: xs → is_Some (insts s !! x).
Proof.
  intros B Hx. apply (chain_alive s r xs r); [apply B|]. set_solver.
Qed.

Lemma bucket_bound s l r xs : bucket s l r xs → (length xs < size (insts s))%nat.
Proof.
  intros B.
  pose proof (alive_length (insts s) (r :: xs) (bucket_nodup _ _ _ _ B)) as H.
  cbn in H. apply H. intros y Hy. by eapply bucket_alive.
Qed.

Lemma load_alive s a i : insts s !! a = Some i → load (Some a) s = Ok i s.
Proof. intros H. unfold load. by rewrite H. Qed.

Lemma Find_scan_miss s l r img xs p fuel :
  chain s p xs r → r ∉ xs →
  (∀ x, x ∈ xs → image s x ≠ Some img) →
  (length xs < fuel)%nat →
  Find_scan fuel l (Some r) (Some (hd r xs)) img s = Ok None s.
Proof.
  revert p fuel. induction xs as [|x xs IH]; intros p fuel Hc Hr Hm Hf.
  - destruct fuel; [cbn in Hf; lia|]. cbn. unfold ptr_eqb.
    rewrite bool_decide_eq_true_2; done.
  - destruct fuel; [cbn in Hf; lia|]. cbn [Find_scan hd]. unfold ptr_eqb.
    rewrite bool_decide_eq_false_2 by (intros [= ->]; set_solver).
    destruct Hc as [_ Hc].
    destruct (chain_alive s x xs r x Hc) as [i Hi]; [set_solver|].
    rewrite (bind_Ok _ _ _ _ _ (load_alive _ _ _ Hi)).
    assert (ecs.ImageId (Attrs i) ≠ img) as Hne.
    { intros <-. apply (Hm x); [set_solver|]. unfold image, fattrs. by rewrite Hi. }
    apply String.eqb_neq in Hne. rewrite Hne.
    pose proof (chain_first _ _ _ _ Hc) as Hn. unfold fnext in Hn. rewrite Hi in Hn.
    cbn in Hn. injection Hn as ->.
    apply (IH x); [done|set_solver|set_solver|cbn in Hf; lia].
Qed.

Lemma Find_scan_hit s l r img pre n post p fuel :
  chain s p (pre ++ n :: post) r → r ∉ pre → r ≠ n →
  (∀ x, x ∈ pre → image s x ≠ Some img) →
  image s n = Some img →
  (length pre < fuel)%nat →
  Find_scan fuel l (Some r) (Some (hd n pre)) img s = Remove l (Some n) s.
Proof.
  revert p fuel. induction pre as [|x xs IH]; intros p fuel Hc Hr Hrn Hm Hn Hf.
  - destruct fuel; [cbn in Hf; lia|]. cbn [Find_scan hd]. unfold ptr_eqb.
    rewrite bool_decide_eq_false_2 by congruence.
    unfold image, fattrs in Hn.
    destruct (insts s !! n) as [i|] eqn:Hi; [|done].
    rewrite (bind_Ok _ _ _ _ _ (load_alive _ _ _ Hi)).
    cbn in Hn. injection Hn as Hn. apply String.eqb_eq in Hn. by rewrite Hn.
  - destruct fuel; [cbn in Hf; lia|]. cbn [Find_scan hd]. unfold ptr_eqb.
    rewrite bool_decide_eq_false_2 by (intros [= ->]; set_solver).
    destruct Hc as [_ Hc].
    destruct (chain_alive s x (xs ++ n :: post) r x Hc) as [i Hi]; [set_solver|].
    rewrite (bind_Ok _ _ _ _ _ (load_alive _ _ _ Hi)).
    assert (ecs.ImageId (Attrs i) ≠ img) as Hne.
    { intros <-. apply (Hm x); [set_solver|]. unfold image, fattrs. by rewrite Hi. }
    apply String.eqb_neq in Hne. rewrite Hne.
    pose proof (chain_first _ _ _ _ Hc) as Hx. unfold fnext in Hx. rewrite Hi in Hx.
    cbn in Hx. injection Hx as ->.
    replace (hd r (xs ++ n :: post)) with (hd n xs) by (destruct xs; done).
    apply (IH x); [done|set_solver|done|set_solver|done|cbn in Hf; lia].
Qed.

Lemma Find_enter s l r xs img :
  bucket s l r xs →
  Find l img s = Find_scan (S (size (insts s))) l (Some r) (Some (hd r xs)) img s.
Proof.
  intros B. unfold Find, loadL, scan_bound.
  unfold mbind at 1, M_bind. rewrite (bucket_list _ _ _ _ B). cbn [root].
  destruct (bucket_alive s l r xs r B) as [i Hi]; [set_solver|].
  rewrite (bind_Ok _ _ _ _ _ (load_alive _ _ _ Hi)).
  unfold mbind, M_bind. 
  pose proof (chain_first _ _ _ _ (bucket_ring _ _ _ _ B)) as Hx.
  unfold fnext in Hx. rewrite Hi in Hx. cbn in Hx. injection Hx as ->. done.
Qed.

Lemma lazyInit_bucket s l r xs : bucket s l r xs → lazyInit l s = Ok tt s.
Proof.
  intros B.
  destruct (bucket_alive s l r xs r B) as [i Hi]; [apply elem_of_cons; by left|].
  pose proof (chain_first _ _ _ _ (bucket_ring _ _ _ _ B)) as Hx.
  unfold fnext in Hx. rewrite Hi in Hx. cbn in Hx. injection Hx as Hx.
  pose proof (bucket_list _ _ _ _ B) as HL.
  unfold lazyInit, Lock, Unlock, loadL, modifyL, load, modify, raise, ret, mbind, M_bind, mret, M_ret.
  repeat (first [rewrite HL | rewrite lookup_insert_eq | rewrite Hi | rewrite Hx]; cbn).
  f_equal.
  destruct s as [h ls t]; cbn in *. unfold set_lists; cbn. f_equal.
  rewrite insert_insert_eq. by apply insert_id.
Qed.

Lemma Push_scan_miss s r e ie xs p fuel :
  chain s p xs r → r ∉ xs →
  insts s !! e = Some ie →
  (∀ x, x ∈ xs → ident s x ≠ ident s e) →
  (length xs < fuel)%nat →
  Push_scan fuel (Some r) (Some (hd r xs)) (Some e) s = Ok false s.
Proof.
  intros Hc Hr He. revert p fuel Hc Hr.
  induction xs as [|x xs IH]; intros p fuel Hc Hr Hm Hf.
  - destruct fuel; [cbn in Hf; lia|]. cbn. unfold ptr_eqb.
    rewrite bool_decide_eq_true_2; done.
  - destruct fuel; [cbn in Hf; lia|]. cbn [Push_scan hd]. unfold ptr_eqb.
    rewrite bool_decide_eq_false_2 by (intros [= ->]; set_solver).
    destruct Hc as [_ Hc].
    destruct (chain_alive s x xs r x Hc) as [i Hi]; [set_solver|].
    rewrite (bind_Ok _ _ _ _ _ (load_alive _ _ _ Hi)).
    rewrite (bind_Ok _ _ _ _ _ (load_alive _ _ _ He)).
    assert (ecs.InstanceId (Attrs i) ≠ ecs.InstanceId (Attrs ie)) as Hne.
    { intros Heq. apply (Hm x); [set_solver|]. unfold ident, fattrs. rewrite Hi, He. cbn. by rewrite Heq. }
    apply String.eqb_neq in Hne. rewrite Hne.
    pose proof (chain_first _ _ _ _ Hc) as Hn. unfold fnext in Hn. rewrite Hi in Hn.
    cbn in Hn. injection Hn as ->.
    apply (IH x); [done|set_solver|set_solver|cbn in Hf; lia].
Qed.

Lemma Push_scan_dup s r e ie xs p fuel :
  chain s p xs r → r ∉ xs →
  insts s !! e = Some ie →
  (∃ x, x ∈ xs ∧ ident s x = ident s e) →
  (length xs < fuel)%nat →
  Push_scan fuel (Some r) (Some (hd r xs)) (Some e) s = Ok true s.
Proof.
  intros Hc Hr He. revert p fuel Hc Hr.
  induction xs as [|x xs IH]; intros p fuel Hc Hr Hm Hf.
  - destruct Hm as (x & Hx & _). by apply elem_of_nil in Hx.
  - destruct fuel; [cbn in Hf; lia|]. cbn [Push_scan hd]. unfold ptr_eqb.
    rewrite bool_decide_eq_false_2 by (intros [= ->]; set_solver).
    destruct Hc as [_ Hc].
    destruct (chain_alive s x xs r x Hc) as [i Hi]; [set_solver|].
    rewrite (bind_Ok _ _ _ _ _ (load_alive _ _ _ Hi)).
    rewrite (bind_Ok _ _ _ _ _ (load_alive _ _ _ He)).
    destruct (String.eqb (ecs.InstanceId (Attrs i)) (ecs.InstanceId (Attrs ie))) eqn:Heq; [done|].
    apply String.eqb_neq in Heq.
    pose proof (chain_first _ _ _ _ Hc) as Hn. unfold fnext in Hn. rewrite Hi in Hn.
    cbn in Hn. injection Hn as ->.
    apply (IH x); [done|set_solver| |cbn in Hf; lia].
    destruct Hm as (y & Hy & Hid). exists y. split; [|done].
    apply elem_of_cons in Hy as [->|Hy]; [|done].
    exfalso. apply Heq. unfold ident, fattrs in Hid. rewrite Hi, He in Hid. cbn in Hid. congruence.
Qed.

Lemma Push_head s l r xs e :
  bucket s l r xs →
  ∀ (k : bool → M ptr),
  (lazyInit l ;; L ← loadL l ; r0 ← load (root L) ; fuel ← scan_bound ;
   dup ← Push_scan fuel (root L) (next r0) e ; k dup) s
  = (dup ← Push_scan (S (size (insts s))) (Some r) (Some (hd r xs)) e ; k dup) s.
Proof.
  intros B k.
  rewrite (bind_Ok _ _ _ _ _ (lazyInit_bucket _ _ _ _ B)).
  unfold loadL, scan_bound.
  unfold mbind at 1, M_bind at 1. rewrite (bucket_list _ _ _ _ B). cbn [root].
  destruct (bucket_alive s l r xs r B) as [i Hi]; [set_solver|].
  rewrite (bind_Ok _ _ _ _ _ (load_alive _ _ _ Hi)).
  unfold mbind at 1, M_bind at 1.
  pose proof (chain_first _ _ _ _ (bucket_ring _ _ _ _ B)) as Hx.
  unfold fnext in Hx. rewrite Hi in Hx. cbn in Hx.
  injection Hx as ->. done.
Qed.

Lemma Push_dup s l r xs e :
  bucket s l r xs →
  is_Some (insts s !! e) →
  (∃ x, x ∈ xs ∧ ident s x = ident s e) →
  Push l (Some e) s = Ok None s.
Proof.
  intros B [ie He] Hdup. unfold Push.
  rewrite (Push_head s l r xs (Some e) B).
  pose proof (bucket_nodup _ _ _ _ B) as Hnd. apply NoDup_cons in Hnd as [Hr _].
  erewrite bind_Ok; [|eapply (Push_scan_dup s r e ie xs r); eauto].
  - done.
  - apply B.
  - pose proof (bucket_bound _ _ _ _ B). lia.
Qed.

Lemma Push_fresh s l r xs e :
  bucket s l r xs →
  is_Some (insts s !! e) → e ≠ r →
  (∀ x, x ∈ xs → ident s x ≠ ident s e) →
  Z.of_nat (length xs) < max_int64 →
  ∃ s', Push l (Some e) s = Ok (Some e) s'
    ∧ bucket s' l r (xs ++ [e])
    ∧ frame s s' l [lastd r xs; e; r].
Proof.
  intros B [ie He] Her Hfresh Hfit. unfold Push.
  rewrite (Push_head s l r xs (Some e) B).
  pose proof (bucket_nodup _ _ _ _ B) as Hnd.
  apply NoDup_cons in Hnd as Hnd'. destruct Hnd' as [Hr Hnx].
  erewrite bind_Ok; [|eapply (Push_scan_miss s r e ie xs r); eauto;
                       [apply B|pose proof (bucket_bound _ _ _ _ B); lia]].
  cbn match.
  pose proof (bucket_list _ _ _ _ B) as HL.
  unfold loadL. unfold mbind at 1, M_bind at 1. rewrite HL. cbn [root].
  destruct (bucket_alive s l r xs r B) as [i Hi]; [apply elem_of_cons; by left|].
  rewrite (bind_Ok _ _ _ _ _ (load_alive _ _ _ Hi)).
  pose proof (chain_last _ _ _ _ (bucket_ring _ _ _ _ B)) as [Hn Hp].
  unfold fprev in Hp. rewrite Hi in Hp. cbn in Hp. injection Hp as ->.
  assert (Ha_in : lastd r xs ∈ r :: xs) by apply lastd_elem.
  remember (lastd r xs) as a eqn:Ea.
  assert (He_xs : e ∉ xs).
  { intros Hin. by apply (Hfresh e). }
  assert (Hea : e ≠ a).
  { intros ->. apply elem_of_cons in Ha_in as [?|?]; done. }
  unfold fnext in Hn.
  destruct (insts s !! a) as [ia|] eqn:Hia; [|done]. cbn in Hn. injection Hn as Hn.
  destruct (insert_fields s l e a _ ia r HL eq_refl Hia Hn)
    as (s' & Hrun & HL' & Htr & Fn & Fp & Fl & Fa & Fd); eauto.
  exists s'. split; [done|]. split.
  - split.
    + rewrite HL', lookup_insert_eq. unfold with_mu, with_size; cbn.
      do 2 f_equal. rewrite length_app. cbn. unfold wrap64, max_int64 in *.
      rewrite Z.mod_small; lia.
    + rewrite length_app. cbn. lia.
    + apply chain_app. split.
      * apply (chain_retarget s s' r xs r e); rewrite <- ?Ea.
        -- done.
        -- apply B.
        -- intros x Hx Hne. rewrite Fn.
           assert (x ≠ e) by (clear -Hx Her He_xs; set_solver). fld.
        -- intros x Hx. rewrite Fp.
           assert (x ≠ e ∧ x ≠ r) as [? ?] by (clear -Hx Hr He_xs; set_solver). fld.
        -- rewrite Fn. fld.
        -- rewrite Fp. fld.
      * cbn. split; [rewrite Fn|rewrite Fp]; fld.
    + apply NoDup_cons. split.
      * clear -Hr Her. set_solver.
      * apply NoDup_app. repeat split; [done| |apply NoDup_singleton].
        clear -He_xs. set_solver.
    + intros x Hx. rewrite Fl. case_decide; [done|]. apply B.
      clear -Hx H. set_solver.
  - split; auto.
    + intros l' Hl'. rewrite HL'. by rewrite lookup_insert_ne.
    + intros x Hx. rewrite Fn.
      assert (x ≠ e ∧ x ≠ a) as [? ?] by (clear -Hx; set_solver). fld.
    + intros x Hx. rewrite Fp.
      assert (x ≠ e ∧ x ≠ r) as [? ?] by (clear -Hx; set_solver). fld.
    + intros x Hx. rewrite Fl.
      assert (x ≠ e) by (clear -Hx; set_solver). fld.
Qed.

Lemma walk_chain s r xs p fuel :
  chain s p xs r → r ∉ xs → (length xs < fuel)%nat →
  walk fuel (insts s) (Some r) (Some (hd r xs)) = Some xs.
Proof.
  revert p fuel. induction xs as [|x xs IH]; intros p fuel Hc Hr Hf.
  - destruct fuel; [cbn in Hf; lia|]. cbn. unfold ptr_eqb.
    by rewrite bool_decide_eq_true_2.
  - destruct fuel; [cbn in Hf; lia|]. cbn [walk hd]. unfold ptr_eqb.
    rewrite bool_decide_eq_false_2 by (intros [= ->]; set_solver).
    destruct Hc as [_ Hc].
    destruct (chain_alive s x xs r x Hc) as [i Hi]; [set_solver|].
    rewrite Hi. cbn.
    pose proof (chain_first _ _ _ _ Hc) as Hn. unfold fnext in Hn. rewrite Hi in Hn.
    cbn in Hn. injection Hn as ->.
    rewrite (IH x); [done|done|set_solver|cbn in Hf; lia].
Qed.

Lemma bucket_members s l r xs : bucket s l r xs → members s l = Some xs.
Proof.
  intros B. unfold members. rewrite (bucket_list _ _ _ _ B).
  cbn [mbind option_bind root].
  destruct (bucket_alive s l r xs r B) as [i Hi]; [apply elem_of_cons; by left|].
  rewrite Hi. cbn [mbind option_bind].
  pose proof (chain_first _ _ _ _ (bucket_ring _ _ _ _ B)) as Hx.
  unfold fnext in Hx. rewrite Hi in Hx. cbn in Hx. injection Hx as ->.
  pose proof (bucket_nodup _ _ _ _ B) as Hnd. apply NoDup_cons in Hnd as [Hr _].
  eapply walk_chain; [apply B|done|].
  pose proof (bucket_bound _ _ _ _ B). lia.
Qed.

Lemma bucket_Len s l r xs : bucket s l r xs → Len l s = Ok (Z.of_nat (length xs)) s.
Proof.
  intros B. unfold Len, loadL, mbind, M_bind. by rewrite (bucket_list _ _ _ _ B).
Qed.

(** The first node that satisfies a decidable test splits the ring. *)
Lemma first_split (P : loc → Prop) `{∀ x, Decision (P x)} (xs : list loc) :
  (∃ x, x ∈ xs ∧ P x) →
  ∃ pre n post, xs = pre ++ n :: post ∧ (∀ x, x ∈ pre → ¬ P x) ∧ P n.
Proof.
  induction xs as [|x xs IH]; intros (y & Hy & HP).
  - by apply elem_of_nil in Hy.
  - destruct (decide (P x)) as [Hx|Hx].
    + exists [], x, xs. split; [done|]. split; [|done]. intros z Hz. by apply elem_of_nil in Hz.
    + destruct IH as (pre & n & post & -> & Hpre & Hn).
      { exists y. split; [|done]. apply elem_of_cons in Hy as [->|]; done. }
      exists (x :: pre), n, post. split; [done|]. split; [|done].
      intros z Hz. apply elem_of_cons in Hz as [->|Hz]; auto.
Qed.

(** The hit case of [Find]. *)
Lemma Find_hit s l r xs imageId :
  bucket s l r xs →
  (∃ x, x ∈ xs ∧ image s x = Some imageId) →
  ∃ pre n post s',
    xs = pre ++ n :: post
    ∧ (∀ x, x ∈ pre → image s x ≠ Some imageId)
    ∧ image s n = Some imageId
    ∧ Find l imageId s = Ok (Some n) s'
    ∧ bucket s' l r (pre ++ post)
    ∧ members s' l = Some (pre ++ post)
    ∧ fnext s' n = Some None ∧ fprev s' n = Some None ∧ flist s' n = Some None
    ∧ Len l s = Ok (Z.of_nat (length xs)) s
    ∧ Len l s' = Ok (Z.of_nat (length xs) - 1) s'
    ∧ frame s s' l [lastd r pre; n; hd r post].
Proof.
  intros B Hex. pose proof (bucket_nodup _ _ _ _ B) as Hnd.
  destruct (first_split (λ x, image s x = Some imageId) xs Hex)
    as (pre & n & post & -> & Hpre & Hn).
  destruct (NoDup_ring_split _ _ _ _ Hnd) as (Hr1 & Hr2 & _).
  destruct (Remove_bucket s l r pre n post B) as (s' & Hrm & B' & Fn & Fp & Fl & Fr).
  exists pre, n, post, s'.
  split_and!; try done.
  + rewrite (Find_enter s l r _ imageId B).
    replace (hd r (pre ++ n :: post)) with (hd n pre) by (destruct pre; done).
    rewrite (Find_scan_hit s l r imageId pre n post r); try done.
    * apply B.
    * pose proof (bucket_bound _ _ _ _ B) as Hb. rewrite length_app in Hb. lia.
  + by eapply bucket_members.
  + by eapply bucket_Len.
  + rewrite (bucket_Len _ _ _ _ B'). do 2 f_equal. rewrite !length_app. cbn. lia.
Qed.

(** The miss case of [Find]. *)
Lemma Find_miss s l r xs imageId :
  bucket s l r xs →
  (∀ x, x ∈ xs → image s x ≠ Some imageId) →
  Find l imageId s = Ok None s.
Proof.
  intros B Hmiss. pose proof (bucket_nodup _ _ _ _ B) as Hnd.
  rewrite (Find_enter s l r xs imageId B).
  apply NoDup_cons in Hnd as [Hr _].
  apply (Find_scan_miss s l r imageId xs r); try done.
  + apply B.
  + pose proof (bucket_bound _ _ _ _ B). lia.
Qed.

(** C4. [Find] is find-and-pop: when some node of the bucket carries the
    image id, the first such node in head-to-tail order is unlinked (its
    next, prev and list fields are cleared), the other nodes keep their
    order, the population count drops by exactly one and the node is
    returned; when no node carries the image id, [Find] returns nil and
    leaves the state as it was. *)
Theorem Find_find_and_pop s l r xs imageId :
  bucket s l r xs →
  ((∃ x, x ∈ xs ∧ image s x = Some imageId) →
     ∃ pre n post s',
       xs = pre ++ n :: post
       ∧ (∀ x, x ∈ pre → image s x ≠ Some imageId)
       ∧ image s n = Some imageId
       ∧ Find l imageId s = Ok (Some n) s'
       ∧ bucket s' l r (pre ++ post)
       ∧ members s' l = Some (pre ++ post)
       ∧ fnext s' n = Some None ∧ fprev s' n = Some None ∧ flist s' n = Some None
       ∧ Len l s = Ok (Z.of_nat (length xs)) s
       ∧ Len l s' = Ok (Z.of_nat (length xs) - 1) s'
       ∧ frame s s' l [lastd r pre; n; hd r post])
  ∧ ((∀ x, x ∈ xs → image s x ≠ Some imageId) →
     Find l imageId s = Ok None s).
Proof.
  intros B. split.
  - by apply (Find_hit s l r).
  - by apply (Find_miss s l r).
Qed.

(** C5. [Push] guards against duplicates and inserts at the tail: when a
    node of the bucket has the identifier of [e], the state is left as it
    was and nil is returned; otherwise [e] becomes the last node of the
    ring, its list field points at the bucket, the population count grows
    by one and [e] is returned. *)
Theorem Push_guard_and_tail s l r xs e :
  bucket s l r xs →
  is_Some (insts s !! e) → e ≠ r →
  Z.of_nat (length xs) < max_int64 →
  ((∃ x, x ∈ xs ∧ ident s x = ident s e) →
     Push l (Some e) s = Ok None s)
  ∧ ((∀ x, x ∈ xs → ident s x ≠ ident s e) →
     ∃ s', Push l (Some e) s = Ok (Some e) s'
       ∧ bucket s' l r (xs ++ [e])
       ∧ members s' l = Some (xs ++ [e])
       ∧ flist s' e = Some (Some l)
       ∧ Len l s = Ok (Z.of_nat (length xs)) s
       ∧ Len l s' = Ok (Z.of_nat (length xs) + 1) s'
       ∧ frame s s' l [lastd r xs; e; r]).
Proof.
  intros B He Her Hfit. split.
  - by apply (Push_dup s l r xs e).
  - intros Hfresh.
    destruct (Push_fresh s l r xs e B He Her Hfresh Hfit) as (s' & Hrun & B' & Fr).
    exists s'. split_and!; try done.
    + by eapply bucket_members.
    + apply B'. apply elem_of_app. right. by apply list_elem_of_singleton.
    + by eapply bucket_Len.
    + rewrite (bucket_Len _ _ _ _ B'). do 2 f_equal. rewrite length_app. cbn. lia.
Qed.

(** C10, as the code behaves. On a zero-value [InstanceList] the root
    pointer is nil: [Find] and [Push] both stop with a nil dereference
    before anything is initialised. *)
Theorem zero_value_bucket_panics s l e imageId :
  lists s !! l = Some zeroInstanceList →
  Find l imageId s = Fault NilDeref ∧ Push l e s = Fault NilDeref.
Proof.
  intros HL. split.
  - unfold Find, loadL, load, mbind, M_bind. rewrite HL. done.
  - unfold Push, lazyInit, Lock, loadL, modifyL, load, raise, mbind, M_bind.
    rewrite HL. cbn. rewrite HL. cbn. rewrite lookup_insert_eq. done.
Qed.

(** [lazyInit] never initialises: with a root whose next is nil it calls
    [Init] while it holds the lock. *)
Lemma lazyInit_deadlock s l L a i :
  lists s !! l = Some L → mu L = false → root L = Some a →
  insts s !! a = Some i → next i = None →
  lazyInit l s = Fault Deadlock.
Proof.
  intros HL Hmu Hr Hi Hn.
  unfold lazyInit, Init, Lock, loadL, modifyL, load, raise, mbind, M_bind.
  repeat (first [rewrite HL | rewrite Hmu | rewrite lookup_insert_eq | rewrite Hr
                | rewrite Hi | rewrite Hn]; cbn).
  done.
Qed.

(** C7. [Start] on an instance that is not Stopped fails at once and
    issues no call; on a Stopped instance the answer to RemoveTags is
    dropped, a failure of ReInitDisk is returned with no StartInstance
    call issued (the calls made are RemoveTags and ReInitDisk only), and
    otherwise the answer to StartInstance is returned. *)
Theorem Start_precondition_and_errors (cl : client) s a i :
  insts s !! a = Some i →
  let id := ecs.InstanceId (Attrs i) in
  let t1 := trace s ++ [ecs.RemoveTags id] in
  let t2 := t1 ++ [ecs.ReInitDisk (ecs.DiskId (Disk i))] in
  let t3 := t2 ++ [ecs.Sleep 2] in
  (ecs.Status (Attrs i) ≠ "Stopped" →
     Start cl (Some a) s = Ok (Some err_not_stopped) s)
  ∧ (ecs.Status (Attrs i) = "Stopped" →
     match cl t1 (ecs.ReInitDisk (ecs.DiskId (Disk i))) with
     | Some e =>
         Start cl (Some a) s = Ok (Some e) (set_trace (λ _, t2) s)
     | None =>
         Start cl (Some a) s =
           Ok (cl t3 (ecs.StartInstance id))
              (set_trace (λ _, t3 ++ [ecs.StartInstance id]) s)
     end).
Proof.
  intros Hi id t1 t2 t3. split.
  - intros Hst. unfold Start. rewrite (bind_Ok _ _ _ _ _ (load_alive _ _ _ Hi)).
    apply String.eqb_neq in Hst. by rewrite Hst.
  - intros Hst. unfold Start. rewrite (bind_Ok _ _ _ _ _ (load_alive _ _ _ Hi)).
    apply String.eqb_eq in Hst. rewrite Hst. cbn [negb].
    unfold provider_call, sleep, mbind, M_bind, ret, mret, M_ret. cbn.
    fold id. fold t1.
    destruct (cl t1 (ecs.ReInitDisk (ecs.DiskId (Disk i)))) as [e|] eqn:He; done.
Qed.

Lemma wrap64_id z : in_int64 z → wrap64 z = z.
Proof.
  unfold in_int64, min_int64, max_int64, wrap64. intros H.
  rewrite Z.mod_small; lia.
Qed.

(** C9, amended. With [rangeMin ≤ rangeMax] and a span
    [rangeMax - rangeMin] that fits in an int64, [Wait] adds to
    [rangeMin] the value [Int63n] draws from [[0, rangeMax - rangeMin)]
    when the span is positive, so the period lies in
    [[rangeMin, rangeMax]]; with [rangeMax = rangeMin] the period is
    [rangeMin] and nothing is drawn. *)
Theorem Wait_period_bound {Rand : Type} (Int63n : Rand → Z → Z * Rand) (d : delayer Rand) :
  (∀ g n, 0 < n → 0 <= fst (Int63n g n) < n) →
  in_int64 (rangeMin d) → in_int64 (rangeMax d) →
  rangeMin d <= rangeMax d →
  rangeMax d - rangeMin d <= max_int64 →
  (rangeMin d < rangeMax d →
     let v := fst (Int63n (r d) (rangeMax d - rangeMin d)) in
     fst (Wait Int63n d) = rangeMin d + v
     ∧ 0 <= v < rangeMax d - rangeMin d
     ∧ rangeMin d <= fst (Wait Int63n d) <= rangeMax d)
  ∧ (rangeMax d = rangeMin d → Wait Int63n d = (rangeMin d, d)).
Proof.
  intros Hdraw Hmin Hmax Hle Hspan.
  assert (Hd : wrap64 (rangeMax d - rangeMin d) = rangeMax d - rangeMin d).
  { apply wrap64_id. unfold in_int64, min_int64, max_int64 in *. lia. }
  split.
  - intros Hlt v. unfold Wait. rewrite Hd.
    destruct (0 <? rangeMax d - rangeMin d) eqn:Hpos; [|apply Z.ltb_ge in Hpos; lia].
    specialize (Hdraw (r d) (rangeMax d - rangeMin d) ltac:(lia)).
    subst v. destruct (Int63n (r d) (rangeMax d - rangeMin d)) as [v g'] eqn:Hv.
    cbn [fst] in *.
    rewrite wrap64_id by (unfold in_int64, min_int64, max_int64 in *; lia).
    lia.
  - intros Heq. unfold Wait. rewrite Hd.
    destruct (0 <? rangeMax d - rangeMin d) eqn:Hpos; [apply Z.ltb_lt in Hpos; lia|done].
Qed.

(** C9, the case the claim leaves out: a span that overflows an int64
    wraps to a value that is not positive, nothing is drawn and the
    period is [rangeMin]. *)
Lemma Wait_span_overflow {Rand : Type} (Int63n : Rand → Z → Z * Rand) (d : delayer Rand) :
  in_int64 (rangeMin d) → in_int64 (rangeMax d) →
  max_int64 < rangeMax d - rangeMin d →
  Wait Int63n d = (rangeMin d, d).
Proof.
  intros Hmin Hmax Hspan. unfold Wait.
  assert (wrap64 (rangeMax d - rangeMin d) = rangeMax d - rangeMin d - 2 ^ 64) as ->.
  { unfold wrap64, in_int64, min_int64, max_int64 in *.
    replace (rangeMax d - rangeMin d + 2 ^ 63)
      with ((rangeMax d - rangeMin d - 2 ^ 63) + 1 * 2 ^ 64) by lia.
    rewrite Z.mod_add by lia. rewrite Z.mod_small; lia. }
  destruct (0 <? _) eqn:Hpos; [|done].
  apply Z.ltb_lt in Hpos. unfold in_int64, min_int64, max_int64 in *. lia.
Qed.

Lemma Stop_alive (cl : client) s a i :
  insts s !! a = Some i →
  let id := ecs.InstanceId (Attrs i) in
  let t1 := trace s ++ [ecs.RemoveTags id] in
  Stop cl (Some a) s =
    if negb (String.eqb (ecs.Status (Attrs i)) "Running")
    then Ok (Some err_not_running) s
    else Ok (cl t1 (ecs.StopInstance id true))
            (set_trace (λ _, t1 ++ [ecs.StopInstance id true]) s).
Proof.
  intros Hi id t1. unfold Stop. rewrite (bind_Ok _ _ _ _ _ (load_alive _ _ _ Hi)).
  destruct (negb _); done.
Qed.

Lemma SetUsedTag_alive (cl : client) s a i :
  insts s !! a = Some i →
  SetUsedTag cl (Some a) s =
    Ok (cl (trace s) (ecs.AddTags (ecs.InstanceId (Attrs i))))
       (set_trace (λ t, t ++ [ecs.AddTags (ecs.InstanceId (Attrs i))]) s).
Proof.
  intros Hi. unfold SetUsedTag. by rewrite (bind_Ok _ _ _ _ _ (load_alive _ _ _ Hi)).
Qed.

(** C6. [StopInstance] answers "not found instance" for an identifier
    that is not in the index and the different error "not used instance
    can not been stop" for one that is in the index but not in the used
    map, both without touching cluster or heap; for a reserved instance it
    returns the error of [Stop] and keeps the used map, and when [Stop]
    succeeds it deletes the record's identifier from the used map and
    returns nil. *)
Theorem StopInstance_errors_and_effect (cl : client) c instanceId s :
  (instances c !! instanceId = None →
     StopInstance cl c instanceId s = Ok (Some err_not_found, c) s)
  ∧ (is_Some (instances c !! instanceId) → used c !! instanceId = None →
     StopInstance cl c instanceId s = Ok (Some err_not_used, c) s)
  ∧ err_not_found ≠ err_not_used
  ∧ (∀ a i, is_Some (instances c !! instanceId) →
       used c !! instanceId = Some a → insts s !! a = Some i →
       let id := ecs.InstanceId (Attrs i) in
       let t1 := trace s ++ [ecs.RemoveTags id] in
       let s2 := set_trace (λ _, t1 ++ [ecs.StopInstance id true]) s in
       (ecs.Status (Attrs i) ≠ "Running" →
          StopInstance cl c instanceId s = Ok (Some err_not_running, c) s)
       ∧ (ecs.Status (Attrs i) = "Running" →
          match cl t1 (ecs.StopInstance id true) with
          | Some e => StopInstance cl c instanceId s = Ok (Some e, c) s2
          | None =>
              StopInstance cl c instanceId s =
                Ok (None, with_used (delete id (used c)) c) s2
              ∧ (id = instanceId →
                 used (with_used (delete id (used c)) c) !! instanceId = None)
          end)).
Proof.
  split_and!.
  - intros H. unfold StopInstance. by rewrite H.
  - intros [a H] Hu. unfold StopInstance. by rewrite H, Hu.
  - done.
  - intros a i [a' H] Hu Hi id t1 s2.
    assert (Hrun : StopInstance cl c instanceId s =
      match Stop cl (Some a) s with
      | Ok (Some e) s' => Ok (Some e, c) s'
      | Ok None s' =>
          (i ← load (Some a) ;
           ret (None, with_used (delete (ecs.InstanceId (Attrs i)) (used c)) c)) s'
      | Fault f => Fault f
      end).
    { unfold StopInstance. rewrite H, Hu. unfold mbind at 1, M_bind at 1.
      destruct (Stop cl (Some a) s) as [[e|] s'|]; done. }
    rewrite Hrun, (Stop_alive cl s a i Hi). fold id. fold t1. fold s2. split.
    + intros Hst. destruct (String.eqb _ _) eqn:E; [by apply String.eqb_eq in E|done].
    + intros Hst. destruct (String.eqb _ _) eqn:E; [|by apply String.eqb_neq in E].
      cbn [negb]. destruct (cl t1 (ecs.StopInstance id true)) as [e|]; [done|].
      split.
      * assert (Hi2 : insts s2 !! a = Some i) by done.
        rewrite (bind_Ok _ _ _ _ _ (load_alive _ _ _ Hi2)). done.
      * intros <-. cbn. apply lookup_delete_eq.
Qed.

Lemma bucket_set_trace s l r xs f : bucket s l r xs → bucket (set_trace f s) l r xs.
Proof.
  intros [H1 H2 H3 H4 H5]. split; try done.
  revert H3. by apply chain_frame.
Qed.



Lemma sample_bucket : bucket sample_store 0%nat 0%nat [1; 2; 3]%nat.
Proof.
  split.
  - vm_compute. reflexivity.
  - vm_compute. discriminate.
  - cbn [chain]. unfold adj. repeat split; vm_compute; reflexivity.
  - apply (bool_decide_unpack (NoDup [0; 1; 2; 3]%nat)). vm_compute. exact I.
  - intros x Hx.
    repeat (apply elem_of_cons in Hx as [->|Hx]; [vm_compute; reflexivity|]).
    by apply elem_of_nil in Hx.
Qed.

Lemma Find_find_and_pop_witness :
  bucket sample_store 0%nat 0%nat [1; 2; 3]%nat
  ∧ (∃ pre n post s',
       [1; 2; 3]%nat = pre ++ n :: post
       ∧ image sample_store n = Some "img-2"
       ∧ Find 0%nat "img-2" sample_store = Ok (Some n) s'
       ∧ members s' 0%nat = Some (pre ++ post)
       ∧ Len 0%nat s' = Ok (Z.of_nat 3 - 1) s')
  ∧ Find 0%nat "img-9" sample_store = Ok None sample_store.
Proof.
  split; [exact sample_bucket|].
  destruct (Find_find_and_pop sample_store 0%nat 0%nat [1; 2; 3]%nat "img-2" sample_bucket)
    as [Hhit _].
  destruct (Find_find_and_pop sample_store 0%nat 0%nat [1; 2; 3]%nat "img-9" sample_bucket)
    as [_ Hmiss].
  split.
  - destruct Hhit as (pre & n & post & s' & Hxs & _ & Hn & Hfind & _ & Hm & _ & _ & _ & _ & HLen & _).
    { exists 2%nat. split; [|vm_compute; reflexivity].
      apply elem_of_cons. right. apply elem_of_cons. left. reflexivity. }
    exists pre, n, post, s'. repeat (split; [assumption|]). assumption.
  - apply Hmiss. intros x Hx.
    repeat (apply elem_of_cons in Hx as [->|Hx]; [vm_compute; discriminate|]).
    apply elem_of_nil in Hx. destruct Hx.
Defined.

Lemma Push_guard_and_tail_witness :
  bucket sample_store 0%nat 0%nat [1; 2; 3]%nat
  ∧ is_Some (insts sample_store !! 4%nat)
  ∧ (∃ s', Push 0%nat (Some 4%nat) sample_store = Ok (Some 4%nat) s'
           ∧ members s' 0%nat = Some ([1; 2; 3] ++ [4])%nat
           ∧ flist s' 4%nat = Some (Some 0%nat)
           ∧ Len 0%nat s' = Ok (Z.of_nat 3 + 1) s')
  ∧ Push 0%nat (Some 2%nat) sample_store = Ok None sample_store.
Proof.
  assert (H4 : is_Some (insts sample_store !! 4%nat)).
  { vm_compute. eexists. reflexivity. }
  assert (H2 : is_Some (insts sample_store !! 2%nat)).
  { vm_compute. eexists. reflexivity. }
  assert (Hfit : Z.of_nat (length [1; 2; 3]%nat) < max_int64).
  { vm_compute. reflexivity. }
  split; [exact sample_bucket|]. split; [exact H4|].
  destruct (Push_guard_and_tail sample_store 0%nat 0%nat [1; 2; 3]%nat 4%nat
              sample_bucket H4 (λ E : 4%nat = 0%nat, eq_ind 4%nat (λ n, match n with O => False | S _ => True end) I _ E) Hfit)
    as [_ Hfresh].
  destruct (Push_guard_and_tail sample_store 0%nat 0%nat [1; 2; 3]%nat 2%nat
              sample_bucket H2 (λ E : 2%nat = 0%nat, eq_ind 2%nat (λ n, match n with O => False | S _ => True end) I _ E) Hfit)
    as [Hdup _].
  split.
  - destruct Hfresh as (s' & Hrun & _ & Hm & Hl & _ & HLen & _).
    { intros x Hx.
      repeat (apply elem_of_cons in Hx as [->|Hx]; [vm_compute; discriminate|]).
      apply elem_of_nil in Hx. destruct Hx. }
    exists s'. repeat (split; [assumption|]). assumption.
  - apply Hdup. exists 2%nat. split; [|reflexivity].
    apply elem_of_cons. right. apply elem_of_cons. left. reflexivity.
Defined.

Lemma zero_value_bucket_panics_witness :
  lists zero_bucket_store !! 0%nat = Some zeroInstanceList
  ∧ Find 0%nat "img-1" zero_bucket_store = Fault NilDeref
  ∧ Push 0%nat (Some 1%nat) zero_bucket_store = Fault NilDeref.
Proof.
  assert (H : lists zero_bucket_store !! 0%nat = Some zeroInstanceList).
  { vm_compute. reflexivity. }
  split; [exact H|].
  exact (zero_value_bucket_panics zero_bucket_store 0%nat (Some 1%nat) "img-1" H).
Defined.

Lemma Start_precondition_and_errors_witness :
  insts sample_store !! 4%nat = Some (sample_instance "i-d" "img-1" "Stopped" "d-d")
  ∧ Start failing_client (Some 4%nat) sample_store =
      Ok (Some "provider error")
         (set_trace (λ _, (trace sample_store ++ [ecs.RemoveTags "i-d"])
                            ++ [ecs.ReInitDisk "d-d"]) sample_store)
  ∧ Start ok_client (Some 4%nat) sample_store =
      Ok None
         (set_trace (λ _, (((trace sample_store ++ [ecs.RemoveTags "i-d"])
                            ++ [ecs.ReInitDisk "d-d"]) ++ [ecs.Sleep 2])
                            ++ [ecs.StartInstance "i-d"]) sample_store).
Proof.
  assert (H : insts sample_store !! 4%nat = Some (sample_instance "i-d" "img-1" "Stopped" "d-d")).
  { vm_compute. reflexivity. }
  split; [exact H|]. split.
  - destruct (Start_precondition_and_errors failing_client sample_store 4%nat _ H) as [_ Hs].
    exact (Hs eq_refl).
  - destruct (Start_precondition_and_errors ok_client sample_store 4%nat _ H) as [_ Hs].
    exact (Hs eq_refl).
Defined.

Lemma Wait_period_bound_witness :
  (∀ g n, 0 < n → 0 <= fst (top_draw g n) < n)
  ∧ fst (Wait top_draw sample_delayer) = 1000 + 3999
  ∧ 1000 <= fst (Wait top_draw sample_delayer) <= 5000.
Proof.
  assert (Hc : ∀ g n, 0 < n → 0 <= fst (top_draw g n) < n).
  { intros g n Hn. cbn. lia. }
  split; [exact Hc|].
  destruct (Wait_period_bound top_draw sample_delayer Hc) as [Hlt _].
  - vm_compute. split; discriminate.
  - vm_compute. split; discriminate.
  - vm_compute. discriminate.
  - vm_compute. discriminate.
  - destruct Hlt as (H1 & _ & H3); [reflexivity|]. split; [exact H1|exact H3].
Defined.

(** C9, as stated, fails when the span overflows: with rangeMin = -1 and
    rangeMax = 2^63 - 1 the period is -1 whatever the source would have
    drawn from [[0, 2^63)]. *)
Lemma Wait_overflow_counterexample :
  in_int64 (rangeMin overflow_delayer) ∧ in_int64 (rangeMax overflow_delayer)
  ∧ rangeMin overflow_delayer < rangeMax overflow_delayer
  ∧ (∀ g n, 0 < n → 0 <= fst (top_draw g n) < n)
  ∧ fst (Wait top_draw overflow_delayer) = -1
  ∧ fst (Wait top_draw overflow_delayer) ≠
      rangeMin overflow_delayer
      + fst (top_draw (r overflow_delayer)
               (rangeMax overflow_delayer - rangeMin overflow_delayer)).
Proof.
  split_and!.
  - vm_compute. split; discriminate.
  - vm_compute. split; discriminate.
  - vm_compute. reflexivity.
  - intros g n Hn. cbn. lia.
  - vm_compute. reflexivity.
  - vm_compute. discriminate.
Qed.

(** C3, as the code behaves: an identifier that is in the tag listing
    and is reported Starting with a disk ends the pass in the used map
    and in the starting bucket at once. *)
Theorem tagged_instance_enters_bucket :
  ∃ c s a,
    NewCluster ok_client disk_of_i1 (i1_reported "Starting") tag_of_i1 empty_store
      = Ok (inr c) s
    ∧ instances c !! "i-1" = Some a
    ∧ used c !! "i-1" = Some a
    ∧ members s (starting c) = Some [a]
    ∧ flist s a = Some (Some (starting c)).
Proof.
  do 3 eexists. split; [vm_compute; reflexivity|].
  split_and!; vm_compute; reflexivity.
Qed.

(** C1, as the code behaves: an instance handed out by [GetInstance] is
    in the used map; a later pass that finds it Stopping links it into
    the stopping bucket and leaves it in the used map. *)
Theorem used_instance_enters_bucket :
  ∃ c0 s0 c1 s1 c2 s2 a,
    NewCluster ok_client disk_of_i1 (i1_reported "Running") no_tags empty_store
      = Ok (inr c0) s0
    ∧ GetInstance ok_client c0 "img" s0 = Ok (Some a, c1) s1
    ∧ RefreshInstances ok_client c1 (i1_reported "Stopping") no_tags s1
      = Ok (None, c2) s2
    ∧ instances c2 !! "i-1" = Some a
    ∧ used c2 !! "i-1" = Some a
    ∧ members s2 (stopping c2) = Some [a]
    ∧ flist s2 a = Some (Some (stopping c2)).
Proof.
  do 7 eexists. split; [vm_compute; reflexivity|].
  split; [vm_compute; reflexivity|].
  split; [vm_compute; reflexivity|].
  split_and!; vm_compute; reflexivity.
Qed.


Lemma find_no_disk (id : string) (ds : list ecs.DiskItemType) :
  (∀ d, d ∈ ds → ecs.DiskInstanceId d ≠ id) →
  List.find (λ disk, String.eqb (ecs.DiskInstanceId disk) id) ds = None.
Proof.
  induction ds as [|d ds IH]; intros H; [done|]. cbn.
  destruct (String.eqb _ _) eqn:E.
  - apply String.eqb_eq in E. exfalso. apply (H d); [|done]. apply elem_of_cons. by left.
  - apply IH. intros d' Hd'. apply H. apply elem_of_cons. by right.
Qed.

(** ** Further properties of the code *)

(** A bucket only depends on its own list object and on the objects of
    its ring. *)
Lemma bucket_preserved s s' l r xs :
  bucket s l r xs →
  lists s' !! l = lists s !! l →
  (∀ x, x ∈ r :: xs → insts s' !! x = insts s !! x) →
  bucket s' l r xs.
Proof.
  intros [H1 H2 H3 H4 H5] HL Hobj. split; try done.
  - by rewrite HL.
  - revert H3. apply chain_frame.
    + intros x Hx. unfold fnext. by rewrite Hobj.
    + intros x Hx. unfold fprev. rewrite Hobj; [done|].
      clear -Hx. set_solver.
  - intros x Hx. unfold flist. rewrite Hobj; [by apply H5|].
    apply elem_of_cons. by right.
Qed.

Lemma Init_spec s l L :
  lists s !! l = Some L → mu L = false →
  ∃ s', Init l s = Ok l s'
    ∧ bucket s' l (fresh (dom (insts s))) []
    ∧ trace s' = trace s
    ∧ (∀ l', l' ≠ l → lists s' !! l' = lists s !! l')
    ∧ (∀ x, x ≠ fresh (dom (insts s)) → insts s' !! x = insts s !! x).
Proof.
  intros HL Hmu.
  unfold Init, Lock, Unlock, loadL, modifyL, load, modify, new_Instance, raise, ret,
    mbind, M_bind, mret, M_ret.
  set (a := fresh (dom (insts s))).
  repeat (first [rewrite HL | rewrite Hmu | rewrite lookup_insert_eq]; cbn).
  eexists. split; [reflexivity|]. split_and!.
  - split.
    + cbn. by rewrite lookup_insert_eq.
    + cbn. unfold max_int64. lia.
    + cbn. unfold adj, fnext, fprev. cbn. by rewrite !lookup_insert_eq.
    + apply NoDup_singleton.
    + intros x Hx. by apply elem_of_nil in Hx.
  - done.
  - intros l' Hl'. cbn. by rewrite !lookup_insert_ne.
  - intros x Hx. cbn. by rewrite !lookup_insert_ne.
Qed.

Lemma fresh_loc_unused (s : store) : insts s !! fresh (dom (insts s)) = None.
Proof. apply not_elem_of_dom. apply is_fresh. Qed.

Lemma fresh_list_unused (s : store) : lists s !! fresh (dom (lists s)) = None.
Proof. apply not_elem_of_dom. apply is_fresh. Qed.

Lemma NewInstanceList_spec s :
  ∃ l r s', NewInstanceList s = Ok l s'
    ∧ lists s !! l = None ∧ insts s !! r = None
    ∧ bucket s' l r []
    ∧ trace s' = trace s
    ∧ (∀ l', l' ≠ l → lists s' !! l' = lists s !! l')
    ∧ (∀ x, x ≠ r → insts s' !! x = insts s !! x).
Proof.
  unfold NewInstanceList, new_InstanceList.
  set (l := fresh (dom (lists s))).
  set (s1 := set_lists <[l := zeroInstanceList]> s).
  destruct (Init_spec s1 l zeroInstanceList) as (s' & Hrun & B & Ht & HL & Hobj).
  { cbn. by rewrite lookup_insert_eq. }
  { done. }
  exists l, (fresh (dom (insts s))), s'. split_and!; try done.
  - apply fresh_list_unused.
  - apply fresh_loc_unused.
  - intros l' Hl'. rewrite HL by done. cbn. by rewrite lookup_insert_ne.
Qed.

(** X1. A new list is an empty, usable bucket. [NewInstanceList] returns
    a list address that was not in use, with a fresh sentinel that is its
    own next and prev; its length is 0, [Find] finds nothing in it, and
    the lists and objects that existed before are untouched. *)
Theorem NewInstanceList_empty_bucket s :
  ∃ l r s', NewInstanceList s = Ok l s'
    ∧ lists s !! l = None ∧ insts s !! r = None
    ∧ bucket s' l r []
    ∧ members s' l = Some []
    ∧ Len l s' = Ok 0 s'
    ∧ (∀ imageId, Find l imageId s' = Ok None s')
    ∧ (∀ l', is_Some (lists s !! l') → lists s' !! l' = lists s !! l')
    ∧ (∀ x, is_Some (insts s !! x) → insts s' !! x = insts s !! x).
Proof.
  destruct (NewInstanceList_spec s) as (l & r & s' & Hrun & Hl & Hr & B & Ht & HL & Hobj).
  exists l, r, s'. split_and!; try done.
  - by eapply bucket_members.
  - by rewrite (bucket_Len _ _ _ _ B).
  - intros imageId. apply (Find_miss s' l r []); [done|].
    intros x Hx. by apply elem_of_nil in Hx.
  - intros l' [L HL']. apply HL. intros ->. congruence.
  - intros x [i Hx]. apply Hobj. intros ->. congruence.
Qed.

(** X2. [Stop] mirrors [Start]. An instance whose status is not Running
    gets the error at once and no call is issued; otherwise RemoveTags is
    called and its answer dropped, then StopInstance is called with the
    force flag set and its answer is the result. *)
Theorem Stop_precondition_and_errors (cl : client) s a i :
  insts s !! a = Some i →
  let id := ecs.InstanceId (Attrs i) in
  let t1 := trace s ++ [ecs.RemoveTags id] in
  (ecs.Status (Attrs i) ≠ "Running" →
     Stop cl (Some a) s = Ok (Some err_not_running) s)
  ∧ (ecs.Status (Attrs i) = "Running" →
     Stop cl (Some a) s =
       Ok (cl t1 (ecs.StopInstance id true))
          (set_trace (λ _, t1 ++ [ecs.StopInstance id true]) s)).
Proof.
  intros Hi id t1. rewrite (Stop_alive cl s a i Hi). fold id. fold t1. split.
  - intros Hst. destruct (String.eqb _ _) eqn:E; [by apply String.eqb_eq in E|done].
  - intros Hst. destruct (String.eqb _ _) eqn:E; [done|by apply String.eqb_neq in E].
Qed.

Lemma Stop_precondition_and_errors_witness :
  insts sample_store !! 1%nat
    = Some (mkInstance (ecs.mkAttrs "i-a" "img-1" "Running") (ecs.mkDisk "d-a" "i-a")
              (Some 2%nat) (Some 0%nat) (Some 0%nat))
  ∧ Stop failing_client (Some 1%nat) sample_store =
      Ok (Some "provider error")
         (set_trace (λ _, (trace sample_store ++ [ecs.RemoveTags "i-a"])
                            ++ [ecs.StopInstance "i-a" true]) sample_store).
Proof.
  assert (H : insts sample_store !! 1%nat
    = Some (mkInstance (ecs.mkAttrs "i-a" "img-1" "Running") (ecs.mkDisk "d-a" "i-a")
              (Some 2%nat) (Some 0%nat) (Some 0%nat))).
  { vm_compute. reflexivity. }
  split; [exact H|].
  destruct (Stop_precondition_and_errors failing_client sample_store 1%nat _ H) as [_ Hs].
  exact (Hs eq_refl).
Defined.

(** X3. [Remove] takes any member out of its bucket, wherever it stands:
    the other nodes keep their order, the node's links and list field are
    cleared, the count drops by one, the node is returned and nothing
    outside the node and its two neighbours changes. *)
Theorem Remove_unlinks_member s l r xs n :
  bucket s l r xs → n ∈ xs →
  ∃ pre post s',
    xs = pre ++ n :: post
    ∧ Remove l (Some n) s = Ok (Some n) s'
    ∧ bucket s' l r (pre ++ post)
    ∧ members s' l = Some (pre ++ post)
    ∧ Len l s' = Ok (Z.of_nat (length xs) - 1) s'
    ∧ fnext s' n = Some None ∧ fprev s' n = Some None ∧ flist s' n = Some None
    ∧ frame s s' l [lastd r pre; n; hd r post].
Proof.
  intros B Hn. apply list_elem_of_split in Hn as (pre & post & ->).
  destruct (Remove_bucket s l r pre n post B) as (s' & Hrm & B' & Fn & Fp & Fl & Fr).
  exists pre, post, s'. split_and!; try done.
  - by eapply bucket_members.
  - rewrite (bucket_Len _ _ _ _ B'). do 2 f_equal. rewrite !length_app. cbn. lia.
Qed.

Lemma Remove_unlinks_member_witness :
  bucket sample_store 0%nat 0%nat [1; 2; 3]%nat
  ∧ ∃ pre post s',
      [1; 2; 3]%nat = pre ++ 3%nat :: post
      ∧ Remove 0%nat (Some 3%nat) sample_store = Ok (Some 3%nat) s'
      ∧ members s' 0%nat = Some (pre ++ post).
Proof.
  split; [exact sample_bucket|].
  destruct (Remove_unlinks_member sample_store 0%nat 0%nat [1; 2; 3]%nat 3%nat sample_bucket)
    as (pre & post & s' & Hxs & Hrun & _ & Hm & _).
  { apply elem_of_cons. right. apply elem_of_cons. right. apply elem_of_cons. left. reflexivity. }
  exists pre, post, s'. split; [exact Hxs|]. split; [exact Hrun|exact Hm].
Defined.

Lemma Remove_unlinked s l L e i :
  lists s !! l = Some L → mu L = false →
  insts s !! e = Some i → prev i = None →
  Remove l (Some e) s = Fault NilDeref.
Proof.
  intros HL Hmu Hi Hp.
  unfold Remove, Lock, Unlock, loadL, modifyL, load, modify, raise, ret, mbind, M_bind, mret, M_ret.
  repeat (first [rewrite HL | rewrite Hmu | rewrite Hi | rewrite Hp]; cbn).
  done.
Qed.

(** X4. [Remove] has no owner check. Removing a member of a bucket
    succeeds; removing the same node a second time stops with a nil
    dereference, since its links were cleared by the first call. *)
Theorem Remove_twice_panics s l r xs n :
  bucket s l r xs → n ∈ xs →
  ∃ s', Remove l (Some n) s = Ok (Some n) s'
    ∧ Remove l (Some n) s' = Fault NilDeref.
Proof.
  intros B Hn. apply list_elem_of_split in Hn as (pre & post & ->).
  destruct (Remove_bucket s l r pre n post B) as (s' & Hrm & B' & Fn & Fp & Fl & Fr).
  exists s'. split; [done|].
  unfold fprev in Fp. destruct (insts s' !! n) as [i|] eqn:Hi; [|done].
  cbn in Fp. injection Fp as Fp.
  eapply Remove_unlinked; [apply B'|done|done|done].
Qed.

Lemma Remove_twice_panics_witness :
  bucket sample_store 0%nat 0%nat [1; 2; 3]%nat
  ∧ ∃ s', Remove 0%nat (Some 2%nat) sample_store = Ok (Some 2%nat) s'
          ∧ Remove 0%nat (Some 2%nat) s' = Fault NilDeref.
Proof.
  split; [exact sample_bucket|].
  apply (Remove_twice_panics sample_store 0%nat 0%nat [1; 2; 3]%nat 2%nat sample_bucket).
  apply elem_of_cons. right. apply elem_of_cons. left. reflexivity.
Defined.

(** X5. Pushing the same instance twice inserts it once. After a
    successful [Push] of [e] a second [Push] of [e] meets [e]'s own
    identifier in the ring, returns nil and changes nothing. *)
Theorem Push_twice_inserts_once s l r xs e :
  bucket s l r xs →
  is_Some (insts s !! e) → e ≠ r →
  (∀ x, x ∈ xs → ident s x ≠ ident s e) →
  Z.of_nat (length xs) < max_int64 →
  ∃ s', Push l (Some e) s = Ok (Some e) s'
    ∧ Push l (Some e) s' = Ok None s'
    ∧ members s' l = Some (xs ++ [e]).
Proof.
  intros B He Her Hfresh Hfit.
  destruct (Push_fresh s l r xs e B He Her Hfresh Hfit) as (s' & Hrun & B' & Fr).
  exists s'. split; [done|]. split.
  - apply (Push_dup s' l r (xs ++ [e])); [done| |].
    + apply (bucket_alive s' l r (xs ++ [e])); [done|].
      apply elem_of_cons. right. apply elem_of_app. right. by apply list_elem_of_singleton.
    + exists e. split; [|done]. apply elem_of_app. right. by apply list_elem_of_singleton.
  - by eapply bucket_members.
Qed.

Lemma sample_fresh_ident x :
  x ∈ [1; 2; 3]%nat → ident sample_store x ≠ ident sample_store 4%nat.
Proof.
  intros Hx.
  repeat (apply elem_of_cons in Hx as [->|Hx]; [vm_compute; discriminate|]).
  apply elem_of_nil in Hx. destruct Hx.
Qed.

Lemma sample_alive_4 : is_Some (insts sample_store !! 4%nat).
Proof. vm_compute. eexists. reflexivity. Qed.

Lemma sample_fits : Z.of_nat (length [1; 2; 3]%nat) < max_int64.
Proof. vm_compute. reflexivity. Qed.

Lemma four_not_zero : 4%nat ≠ 0%nat.
Proof. discriminate. Qed.

Lemma Push_twice_inserts_once_witness :
  bucket sample_store 0%nat 0%nat [1; 2; 3]%nat
  ∧ ∃ s', Push 0%nat (Some 4%nat) sample_store = Ok (Some 4%nat) s'
          ∧ Push 0%nat (Some 4%nat) s' = Ok None s'
          ∧ members s' 0%nat = Some ([1; 2; 3] ++ [4])%nat.
Proof.
  split; [exact sample_bucket|].
  exact (Push_twice_inserts_once sample_store 0%nat 0%nat [1; 2; 3]%nat 4%nat
           sample_bucket sample_alive_4 four_not_zero sample_fresh_ident sample_fits).
Defined.

(** X6. [Push] then [Find] is a round trip. When [e] is pushed into a
    bucket none of whose nodes has [e]'s image, a [Find] for that image
    returns [e] itself and leaves the bucket with the nodes it held
    before the push, in the same order and with the same count. *)
Theorem Push_Find_round_trip s l r xs e imageId :
  bucket s l r xs →
  is_Some (insts s !! e) → e ≠ r →
  (∀ x, x ∈ xs → ident s x ≠ ident s e) →
  Z.of_nat (length xs) < max_int64 →
  image s e = Some imageId →
  (∀ x, x ∈ xs → image s x ≠ Some imageId) →
  ∃ s1 s2,
    Push l (Some e) s = Ok (Some e) s1
    ∧ Find l imageId s1 = Ok (Some e) s2
    ∧ bucket s2 l r xs
    ∧ members s2 l = Some xs
    ∧ Len l s2 = Ok (Z.of_nat (length xs)) s2
    ∧ flist s2 e = Some None.
Proof.
  intros B He Her Hfresh Hfit Himg Hmiss.
  destruct (Push_fresh s l r xs e B He Her Hfresh Hfit) as (s1 & Hpush & B1 & Fr1).
  assert (Himg1 : ∀ x, image s1 x = image s x).
  { intros x. unfold image. by rewrite (frame_attrs _ _ _ _ Fr1). }
  destruct (Remove_bucket s1 l r xs e [] B1) as (s2 & Hrm & B2 & Fn & Fp & Fl & Fr2).
  rewrite app_nil_r in B2.
  exists s1, s2. split_and!; try done.
  - rewrite (Find_enter s1 l r _ imageId B1).
    replace (hd r (xs ++ [e])) with (hd e xs) by (destruct xs; done).
    pose proof (bucket_nodup _ _ _ _ B1) as Hnd.
    destruct (NoDup_ring_split _ _ _ _ Hnd) as (Hr1 & Hr2 & _).
    rewrite (Find_scan_hit s1 l r imageId xs e [] r); try done.
    + apply B1.
    + intros x Hx. rewrite Himg1. by apply Hmiss.
    + by rewrite Himg1.
    + pose proof (bucket_bound _ _ _ _ B1) as Hb. rewrite length_app in Hb. lia.
  - by eapply bucket_members.
  - by eapply bucket_Len.
Qed.

Lemma sample_no_img9 x :
  x ∈ [1; 2; 3]%nat → image sample_store x ≠ Some "img-9".
Proof.
  intros Hx.
  repeat (apply elem_of_cons in Hx as [->|Hx]; [vm_compute; discriminate|]).
  apply elem_of_nil in Hx. destruct Hx.
Qed.

(** X7. [GetInstance] without a match. When no node of the available
    bucket carries the image id the result is nil, the cluster (its used
    map included) and the whole store are as before, and no provider
    call is made. *)
Theorem GetInstance_none_available (cl : client) c s r xs imageId :
  bucket s (avavilable c) r xs →
  (∀ x, x ∈ xs → image s x ≠ Some imageId) →
  GetInstance cl c imageId s = Ok (None, c) s.
Proof.
  intros B Hmiss. unfold GetInstance.
  by rewrite (bind_Ok _ _ _ _ _ (Find_miss s _ r xs imageId B Hmiss)).
Qed.

Lemma GetInstance_none_available_witness :
  bucket sample_store (avavilable sample_cluster) 0%nat [1; 2; 3]%nat
  ∧ GetInstance ok_client sample_cluster "img-9" sample_store
      = Ok (None, sample_cluster) sample_store.
Proof.
  split; [exact sample_bucket|].
  exact (GetInstance_none_available ok_client sample_cluster sample_store 0%nat
           [1; 2; 3]%nat "img-9" sample_bucket sample_no_img9).
Defined.

Lemma sample_bucket2 : bucket sample_store2 0%nat 0%nat [1; 2; 3]%nat.
Proof.
  apply (bucket_preserved sample_store); [exact sample_bucket|vm_compute; reflexivity|].
  intros x Hx.
  repeat (apply elem_of_cons in Hx as [->|Hx]; [vm_compute; reflexivity|]).
  apply elem_of_nil in Hx. destruct Hx.
Qed.

Lemma Push_Find_round_trip_witness :
  bucket sample_store2 0%nat 0%nat [1; 2; 3]%nat
  ∧ image sample_store2 5%nat = Some "img-5"
  ∧ ∃ s1 s2,
      Push 0%nat (Some 5%nat) sample_store2 = Ok (Some 5%nat) s1
      ∧ Find 0%nat "img-5" s1 = Ok (Some 5%nat) s2
      ∧ members s2 0%nat = Some [1; 2; 3]%nat.
Proof.
  assert (Himg : image sample_store2 5%nat = Some "img-5") by (vm_compute; reflexivity).
  split; [exact sample_bucket2|]. split; [exact Himg|].
  destruct (Push_Find_round_trip sample_store2 0%nat 0%nat [1; 2; 3]%nat 5%nat "img-5"
              sample_bucket2) as (s1 & s2 & H1 & H2 & _ & H4 & _).
  - vm_compute. eexists. reflexivity.
  - discriminate.
  - intros x Hx.
    repeat (apply elem_of_cons in Hx as [->|Hx]; [vm_compute; discriminate|]).
    apply elem_of_nil in Hx. destruct Hx.
  - exact sample_fits.
  - exact Himg.
  - intros x Hx.
    repeat (apply elem_of_cons in Hx as [->|Hx]; [vm_compute; discriminate|]).
    apply elem_of_nil in Hx. destruct Hx.
  - exists s1, s2. split; [exact H1|]. split; [exact H2|exact H4].
Defined.

Lemma next_pages_good {A} (acc : list A) (goods : list (list A)) rest :
  next_pages acc ((inr <$> goods) ++ rest) = next_pages (acc ++ concat goods) rest.
Proof.
  revert acc. induction goods as [|g goods IH]; intros acc; cbn.
  - by rewrite app_nil_r.
  - rewrite IH. by rewrite <- app_assoc.
Qed.

(** X8. [RefreshDisks] and its pages. A failure of the first request
    leaves the cluster as it was. When every page arrives the cached
    disk list is replaced by the pages in order. When a later page
    fails the error is returned, yet the cached list has already been
    replaced by the pages received before the failure. *)
Theorem RefreshDisks_pages c (page1 : list ecs.DiskItemType) goods e rest more :
  RefreshDisks c (mkPaged (inl e) more) = (Some e, c)
  ∧ RefreshDisks c (mkPaged (inr page1) (inr <$> goods))
    = (None, with_disks (page1 ++ concat goods) c)
  ∧ RefreshDisks c (mkPaged (inr page1) ((inr <$> goods) ++ inl e :: rest))
    = (Some e, with_disks (page1 ++ concat goods) c).
Proof.
  split_and!.
  - done.
  - unfold RefreshDisks. cbn [first_page more_pages].
    rewrite <- (app_nil_r (inr <$> goods)), next_pages_good. done.
  - unfold RefreshDisks. cbn [first_page more_pages].
    rewrite next_pages_good. done.
Qed.

(** X9. A listing that fails aborts [RefreshInstances] before anything is
    touched. If the instance listing fails, or it succeeds and the tag
    listing fails, the error is returned and cluster and store are
    exactly as before: no record is made, no bucket changes, no
    provider call is issued. *)
Theorem RefreshInstances_listing_error (cl : client) c il tl s e :
  (fetch il = inl e → RefreshInstances cl c il tl s = Ok (Some e, c) s)
  ∧ (∀ nodes, fetch il = inr nodes → fetch tl = inl e →
       RefreshInstances cl c il tl s = Ok (Some e, c) s).
Proof.
  unfold fetch, RefreshInstances. split.
  - destruct (first_page il) as [e1|p1]; [by intros [= ->]|].
    destruct (next_pages p1 (more_pages il)) as [all [e1|]]; [by intros [= ->]|done].
  - intros nodes.
    destruct (first_page il) as [e1|p1]; [done|].
    destruct (next_pages p1 (more_pages il)) as [all [e1|]]; [done|].
    intros _.
    destruct (first_page tl) as [e2|p2]; [by intros [= ->]|].
    destruct (next_pages p2 (more_pages tl)) as [all2 [e2|]]; [by intros [= ->]|done].
Qed.

Lemma RefreshInstances_fetched (cl : client) c il tl s nodes resources :
  fetch il = inr nodes → fetch tl = inr resources →
  RefreshInstances cl c il tl s =
    (c1 ← reserve_all c resources ; c2 ← status_all cl c1 nodes ; ret (None, c2)) s.
Proof.
  unfold fetch, RefreshInstances.
  destruct (first_page il) as [e1|p1]; [done|].
  destruct (next_pages p1 (more_pages il)) as [all [e1|]]; [done|].
  intros [= ->].
  destruct (first_page tl) as [e2|p2]; [done|].
  destruct (next_pages p2 (more_pages tl)) as [all2 [e2|]]; [done|].
  by intros [= ->].
Qed.

Lemma with_Status_restore (i : Instance) (st : string) :
  with_Attrs (with_Status (ecs.Status (Attrs i)) (with_Status st (Attrs i)))
             (with_Attrs (with_Status st (Attrs i)) i) = i.
Proof. destruct i as [[id img status] d n p l]. done. Qed.

(** X10. The follow-up that [StopInstance] launches. It pauses three
    seconds and then always gets past the status test of [Start]
    (it has just set the status to Stopped), so RemoveTags and
    ReInitDisk are issued in that order. If the provider refuses
    ReInitDisk or StartInstance the record is put back exactly as it was
    found; if both succeed the record keeps the status Stopped. *)
Theorem StopInstance_restart_effect (cl : client) s a i :
  insts s !! a = Some i →
  let id := ecs.InstanceId (Attrs i) in
  let t2 := trace s ++ [ecs.Sleep 3; ecs.RemoveTags id] in
  let t3 := t2 ++ [ecs.ReInitDisk (ecs.DiskId (Disk i))] in
  let t5 := t3 ++ [ecs.Sleep 2; ecs.StartInstance id] in
  let stopped := with_Attrs (with_Status "Stopped" (Attrs i)) i in
  match cl t2 (ecs.ReInitDisk (ecs.DiskId (Disk i))) with
  | Some _ =>
      StopInstance_restart cl (Some a) s
        = Ok tt (mkStore (<[a := i]> (<[a := stopped]> (insts s))) (lists s) t3)
  | None =>
      match cl (t3 ++ [ecs.Sleep 2]) (ecs.StartInstance id) with
      | Some _ =>
          StopInstance_restart cl (Some a) s
            = Ok tt (mkStore (<[a := i]> (<[a := stopped]> (insts s))) (lists s) t5)
      | None =>
          StopInstance_restart cl (Some a) s
            = Ok tt (mkStore (<[a := stopped]> (insts s)) (lists s) t5)
      end
  end.
Proof.
  intros Hi id t2 t3 t5 stopped.
  assert (Ht2 : (trace s ++ [ecs.Sleep 3]) ++ [ecs.RemoveTags id] = t2)
    by (subst t2; by rewrite <- app_assoc).
  assert (Ht5 : (t3 ++ [ecs.Sleep 2]) ++ [ecs.StartInstance id] = t5)
    by (subst t5; by rewrite <- app_assoc).
  assert (Hrun : StopInstance_restart cl (Some a) s =
    match cl t2 (ecs.ReInitDisk (ecs.DiskId (Disk i))) with
    | Some _ => Ok tt (mkStore (<[a := i]> (<[a := stopped]> (insts s))) (lists s) t3)
    | None =>
        match cl (t3 ++ [ecs.Sleep 2]) (ecs.StartInstance id) with
        | Some _ => Ok tt (mkStore (<[a := i]> (<[a := stopped]> (insts s))) (lists s) t5)
        | None => Ok tt (mkStore (<[a := stopped]> (insts s)) (lists s) t5)
        end
    end).
  { unfold StopInstance_restart, Start, sleep, provider_call, load, modify,
      mbind, M_bind, ret, mret, M_ret, set_insts, set_trace.
    cbn. repeat (first [rewrite Hi | rewrite lookup_insert_eq]; cbn). fold id. rewrite Ht2.
    destruct (cl t2 (ecs.ReInitDisk (ecs.DiskId (Disk i)))) as [e|] eqn:E1.
    - cbn. repeat (first [rewrite Hi | rewrite lookup_insert_eq]; cbn).
      rewrite (with_Status_restore i "Stopped"). done.
    - cbn. fold t3. rewrite Ht5.
      destruct (cl (t3 ++ [ecs.Sleep 2]) (ecs.StartInstance id)) as [e|] eqn:E2.
      + cbn. repeat (first [rewrite Hi | rewrite lookup_insert_eq]; cbn).
        rewrite (with_Status_restore i "Stopped"). done.
      + done. }
  rewrite Hrun.
  destruct (cl t2 (ecs.ReInitDisk (ecs.DiskId (Disk i)))); [done|].
  destruct (cl (t3 ++ [ecs.Sleep 2]) (ecs.StartInstance id)); done.
Qed.

Lemma StopInstance_restart_effect_witness :
  insts sample_store !! 1%nat
    = Some (mkInstance (ecs.mkAttrs "i-a" "img-1" "Running") (ecs.mkDisk "d-a" "i-a")
              (Some 2%nat) (Some 0%nat) (Some 0%nat))
  ∧ ∃ s', StopInstance_restart failing_client (Some 1%nat) sample_store = Ok tt s'
          ∧ insts s' !! 1%nat = insts sample_store !! 1%nat.
Proof.
  assert (H : insts sample_store !! 1%nat
    = Some (mkInstance (ecs.mkAttrs "i-a" "img-1" "Running") (ecs.mkDisk "d-a" "i-a")
              (Some 2%nat) (Some 0%nat) (Some 0%nat))).
  { vm_compute. reflexivity. }
  split; [exact H|].
  pose proof (StopInstance_restart_effect failing_client sample_store 1%nat _ H) as Hr.
  cbv zeta in Hr. unfold failing_client in Hr.
  eexists. split; [exact Hr|].
  cbn [insts]. rewrite lookup_insert_eq. symmetry. exact H.
Defined.

(** X11. When [Wait] draws and when it does not.  For int64 values
    [rangeMin] and [rangeMax], write [span] for the exact difference
    [rangeMax - rangeMin].  [Wait] draws nothing exactly when [span]
    lies in [[-2^63, 0]] or above [2^63 - 1]: the int64 [delta] is then
    not positive, the period is [rangeMin] and the random source is
    left as it was.  In the two other cases the test [delta > 0]
    succeeds and the source is advanced: with bound [span] when
    [0 < span <= 2^63 - 1], and with bound [span + 2^64] when
    [span < -2^63], where the exact difference is negative but the
    int64 difference wraps to a positive number. *)
Theorem Wait_without_draw {Rand : Type} (Int63n : Rand → Z → Z * Rand) (d : delayer Rand) :
  in_int64 (rangeMin d) → in_int64 (rangeMax d) →
  let span := rangeMax d - rangeMin d in
  let drawn bound :=
    (wrap64 (rangeMin d + (Int63n (r d) bound).1),
     mkDelayer (rangeMin d) (rangeMax d) (Int63n (r d) bound).2) in
  (min_int64 <= span <= 0 ∨ max_int64 < span → Wait Int63n d = (rangeMin d, d))
  ∧ (0 < span <= max_int64 → Wait Int63n d = drawn span)
  ∧ (span < min_int64 → 0 < span + 2 ^ 64 ∧ Wait Int63n d = drawn (span + 2 ^ 64)).
Proof.
  intros Hmin Hmax span drawn. subst span drawn. cbv beta. split_and!.
  - intros [Hneg|Hover].
    + unfold Wait. rewrite wrap64_id by (unfold in_int64, min_int64, max_int64 in *; lia).
      destruct (0 <? _) eqn:Hpos; [apply Z.ltb_lt in Hpos; lia|done].
    + by apply Wait_span_overflow.
  - intros Hpos. unfold Wait.
    rewrite wrap64_id by (unfold in_int64, min_int64, max_int64 in *; lia).
    destruct (0 <? _) eqn:E; [|apply Z.ltb_ge in E; lia].
    by destruct (Int63n (r d) (rangeMax d - rangeMin d)) as [v g].
  - intros Hlow.
    assert (Hw : wrap64 (rangeMax d - rangeMin d) = rangeMax d - rangeMin d + 2 ^ 64).
    { unfold wrap64, in_int64, min_int64, max_int64 in *.
      replace (rangeMax d - rangeMin d + 2 ^ 63)
        with ((rangeMax d - rangeMin d + 2 ^ 63 + 2 ^ 64) + (-1) * 2 ^ 64) by lia.
      rewrite Z.mod_add by lia. rewrite Z.mod_small; lia. }
    assert (Hpos : 0 < rangeMax d - rangeMin d + 2 ^ 64).
    { unfold in_int64, min_int64, max_int64 in *. lia. }
    split; [done|]. unfold Wait. rewrite Hw.
    destruct (0 <? _) eqn:E; [|apply Z.ltb_ge in E; lia].
    by destruct (Int63n (r d) (rangeMax d - rangeMin d + 2 ^ 64)) as [v g].
Qed.

Lemma Wait_without_draw_witness :
  Wait top_draw overflow_delayer = (rangeMin overflow_delayer, overflow_delayer)
  ∧ Wait counting_draw wrapped_delayer = (max_int64, newDelayer max_int64 min_int64 1%nat).
Proof.
  assert (H1 : in_int64 (rangeMin overflow_delayer)) by (vm_compute; split; discriminate).
  assert (H2 : in_int64 (rangeMax overflow_delayer)) by (vm_compute; split; discriminate).
  assert (H3 : max_int64 < rangeMax overflow_delayer - rangeMin overflow_delayer)
    by (vm_compute; reflexivity).
  assert (K1 : in_int64 (rangeMin wrapped_delayer)) by (vm_compute; split; discriminate).
  assert (K2 : in_int64 (rangeMax wrapped_delayer)) by (vm_compute; split; discriminate).
  assert (K3 : rangeMax wrapped_delayer - rangeMin wrapped_delayer < min_int64)
    by (vm_compute; reflexivity).
  split.
  - exact (proj1 (Wait_without_draw top_draw overflow_delayer H1 H2) (or_intror H3)).
  - destruct (proj2 (proj2 (Wait_without_draw counting_draw wrapped_delayer K1 K2)) K3) as [_ Hw].
    rewrite Hw. vm_compute. reflexivity.
Defined.

(** A bucket is a matter of its list object and of the link and list
    fields of its ring. *)
Lemma bucket_fields s s' l r xs :
  bucket s l r xs →
  lists s' !! l = lists s !! l →
  (∀ x, x ∈ r :: xs → fnext s' x = fnext s x) →
  (∀ x, x ∈ r :: xs → fprev s' x = fprev s x) →
  (∀ x, x ∈ xs → flist s' x = flist s x) →
  bucket s' l r xs.
Proof.
  intros [H1 H2 H3 H4 H5] HL Hn Hp Hl. split; try done.
  - by rewrite HL.
  - revert H3. apply chain_frame; [done|].
    intros x Hx. apply Hp. clear -Hx. set_solver.
  - intros x Hx. rewrite Hl by done. by apply H5.
Qed.

Lemma bucket_frame s s' l l' r' ys touched :
  bucket s l' r' ys →
  frame s s' l touched →
  l' ≠ l →
  (∀ x, x ∈ r' :: ys → x ∉ touched) →
  bucket s' l' r' ys.
Proof.
  intros B Fr Hl Hd. apply (bucket_fields s); [done| | | |].
  - by apply (frame_lists _ _ _ _ Fr).
  - intros x Hx. apply (frame_next _ _ _ _ Fr). by apply Hd.
  - intros x Hx. apply (frame_prev _ _ _ _ Fr). by apply Hd.
  - intros x Hx. apply (frame_list _ _ _ _ Fr). apply Hd. apply elem_of_cons. by right.
Qed.

Lemma flist_alive s a v : flist s a = Some v → ∃ i, insts s !! a = Some i ∧ list_ i = v.
Proof.
  unfold flist. destruct (insts s !! a) as [i|]; [|done].
  cbn. intros [= <-]. eauto.
Qed.

Lemma unlink_free s a : flist s a = Some None → unlink (Some a) s = Ok tt s.
Proof.
  intros H. apply flist_alive in H as (i & Hi & Hl).
  unfold unlink. rewrite (bind_Ok _ _ _ _ _ (load_alive _ _ _ Hi)). by rewrite Hl.
Qed.

Lemma unlink_member s l r pre a post :
  bucket s l r (pre ++ a :: post) →
  ∃ s', unlink (Some a) s = Ok tt s'
    ∧ bucket s' l r (pre ++ post)
    ∧ fnext s' a = Some None ∧ fprev s' a = Some None ∧ flist s' a = Some None
    ∧ frame s s' l [lastd r pre; a; hd r post].
Proof.
  intros B.
  assert (Hl : flist s a = Some (Some l)).
  { apply (bucket_owner _ _ _ _ B). apply elem_of_app. right. apply elem_of_cons. by left. }
  apply flist_alive in Hl as (i & Hi & Hl).
  destruct (Remove_bucket s l r pre a post B) as (s' & Hrm & B' & Fn & Fp & Fl & Fr).
  exists s'. split; [|done].
  unfold unlink. rewrite (bind_Ok _ _ _ _ _ (load_alive _ _ _ Hi)). rewrite Hl.
  by rewrite (bind_Ok _ _ _ _ _ Hrm).
Qed.

(** The nodes an operation on bucket [l] may touch belong to [l]'s ring. *)
Lemma touched_in_ring (r : loc) pre a post x :
  x ∈ [lastd r pre; a; hd r post] → x ∈ r :: pre ++ a :: post.
Proof.
  intros Hx.
  apply elem_of_cons in Hx as [->|Hx].
  { pose proof (lastd_elem r pre) as H. clear -H. set_solver. }
  apply elem_of_cons in Hx as [->|Hx].
  { clear. set_solver. }
  apply list_elem_of_singleton in Hx as ->.
  destruct post; cbn; clear; set_solver.
Qed.

Lemma touched_in_ring_push (r : loc) xs e x :
  x ∈ [lastd r xs; e; r] → x = e ∨ x ∈ r :: xs.
Proof.
  intros Hx.
  apply elem_of_cons in Hx as [->|Hx].
  { right. apply lastd_elem. }
  apply elem_of_cons in Hx as [->|Hx]; [by left|].
  apply list_elem_of_singleton in Hx as ->. right. apply elem_of_cons. by left.
Qed.

Lemma place_settled s a t :
  flist s a = Some (Some t) → place t (Some a) s = Ok tt s.
Proof.
  intros H. apply flist_alive in H as (i & Hi & Hl).
  unfold place. rewrite (bind_Ok _ _ _ _ _ (load_alive _ _ _ Hi)). rewrite Hl.
  rewrite bool_decide_eq_false_2; [done|]. intros Hne. by apply Hne.
Qed.

Lemma place_move s l r pre a post t rt ys :
  bucket s l r (pre ++ a :: post) →
  bucket s t rt ys →
  l ≠ t →
  (∀ x, x ∈ r :: pre ++ a :: post → x ∉ rt :: ys) →
  (∀ y, y ∈ ys → ident s y ≠ ident s a) →
  Z.of_nat (length ys) < max_int64 →
  ∃ s', place t (Some a) s = Ok tt s'
    ∧ bucket s' l r (pre ++ post)
    ∧ bucket s' t rt (ys ++ [a])
    ∧ trace s' = trace s
    ∧ (∀ x, fattrs s' x = fattrs s x) ∧ (∀ x, fdisk s' x = fdisk s x)
    ∧ (∀ x, x ∉ r :: pre ++ a :: post → x ∉ rt :: ys →
         fnext s' x = fnext s x ∧ fprev s' x = fprev s x ∧ flist s' x = flist s x)
    ∧ (∀ l', l' ≠ l → l' ≠ t → lists s' !! l' = lists s !! l').
Proof.
  intros Bl Bt Hlt Hdisj Hfresh Hfit.
  assert (Hal : flist s a = Some (Some l)).
  { apply (bucket_owner _ _ _ _ Bl). apply elem_of_app. right. apply elem_of_cons. by left. }
  apply flist_alive in Hal as (i & Hi & Hl).
  destruct (Remove_bucket s l r pre a post Bl) as (s1 & Hrm & B1 & Fn & Fp & Fl & Fr1).
  assert (Bt1 : bucket s1 t rt ys).
  { apply (bucket_frame s s1 l t rt ys _ Bt Fr1); [done|].
    intros x Hx Ht. apply touched_in_ring in Ht. by apply (Hdisj x). }
  assert (Ha_ring : a ∈ r :: pre ++ a :: post) by (clear; set_solver).
  destruct (Push_fresh s1 t rt ys a Bt1) as (s2 & Hpush & B2 & Fr2).
  { unfold fnext in Fn. destruct (insts s1 !! a); [eauto|done]. }
  { intros ->. apply (Hdisj rt Ha_ring). apply elem_of_cons. by left. }
  { intros y Hy. unfold ident. rewrite !(frame_attrs _ _ _ _ Fr1). by apply Hfresh. }
  { done. }
  pose proof (bucket_nodup _ _ _ _ Bl) as Hnd.
  destruct (NoDup_ring_split _ _ _ _ Hnd) as (Hr1 & Hr2 & Hr3 & Hn1 & Hn2 & _).
  assert (Bl2 : bucket s2 l r (pre ++ post)).
  { apply (bucket_frame s1 s2 t l r (pre ++ post) _ B1 Fr2); [done|].
    intros x Hx Ht. apply touched_in_ring_push in Ht as [->|Ht].
    - clear -Hx Hr2 Hn1 Hn2. set_solver.
    - apply (Hdisj x); [|done]. clear -Hx. set_solver. }
  exists s2. split_and!; try done.
  - unfold place. rewrite (bind_Ok _ _ _ _ _ (load_alive _ _ _ Hi)). rewrite Hl.
    rewrite bool_decide_eq_true_2 by done.
    rewrite (bind_Ok _ _ _ _ _ Hrm). by rewrite (bind_Ok _ _ _ _ _ Hpush).
  - by rewrite (frame_trace _ _ _ _ Fr2), (frame_trace _ _ _ _ Fr1).
  - intros x. by rewrite (frame_attrs _ _ _ _ Fr2), (frame_attrs _ _ _ _ Fr1).
  - intros x. by rewrite (frame_disk _ _ _ _ Fr2), (frame_disk _ _ _ _ Fr1).
  - intros x Hx1 Hx2.
    assert (x ∉ [lastd r pre; a; hd r post]) as Ht1.
    { intros Ht. by apply touched_in_ring in Ht. }
    assert (x ∉ [lastd rt ys; a; rt]) as Ht2.
    { intros Ht. apply touched_in_ring_push in Ht as [->|Ht]; done. }
    rewrite (frame_next _ _ _ _ Fr2), (frame_prev _ _ _ _ Fr2), (frame_list _ _ _ _ Fr2) by done.
    rewrite (frame_next _ _ _ _ Fr1), (frame_prev _ _ _ _ Fr1), (frame_list _ _ _ _ Fr1) by done.
    done.
  - intros l' H1 H2.
    by rewrite (frame_lists _ _ _ _ Fr2), (frame_lists _ _ _ _ Fr1).
Qed.

(** X12. Moving an instance between buckets. When the instance is a
    member of bucket [l] and is placed into another bucket [t] that
    holds no node with its identifier, it leaves [l] (whose other nodes
    keep their order) and becomes the last node of [t]; both rings stay
    intact, so the instance is never in two buckets.  Placing an
    instance into the bucket it is already in changes nothing. *)
Theorem place_moves_between_buckets s l r pre a post t rt ys :
  bucket s l r (pre ++ a :: post) →
  bucket s t rt ys →
  l ≠ t →
  (∀ x, x ∈ r :: pre ++ a :: post → x ∉ rt :: ys) →
  (∀ y, y ∈ ys → ident s y ≠ ident s a) →
  Z.of_nat (length ys) < max_int64 →
  (∃ s', place t (Some a) s = Ok tt s'
     ∧ bucket s' l r (pre ++ post)
     ∧ bucket s' t rt (ys ++ [a])
     ∧ members s' l = Some (pre ++ post)
     ∧ members s' t = Some (ys ++ [a])
     ∧ flist s' a = Some (Some t))
  ∧ place l (Some a) s = Ok tt s.
Proof.
  intros Bl Bt Hlt Hdisj Hfresh Hfit. split.
  - destruct (place_move s l r pre a post t rt ys Bl Bt Hlt Hdisj Hfresh Hfit)
      as (s' & Hrun & Bl' & Bt' & _).
    exists s'. split_and!; try done.
    + by eapply bucket_members.
    + by eapply bucket_members.
    + apply (bucket_owner _ _ _ _ Bt'). apply elem_of_app. right.
      by apply list_elem_of_singleton.
  - apply place_settled. apply (bucket_owner _ _ _ _ Bl).
    apply elem_of_app. right. apply elem_of_cons. by left.
Qed.

Lemma sample_bucket3 : bucket sample_store3 0%nat 0%nat ([1] ++ 2 :: [3])%nat.
Proof.
  apply (bucket_preserved sample_store); [exact sample_bucket|vm_compute; reflexivity|].
  intros x Hx.
  repeat (apply elem_of_cons in Hx as [->|Hx]; [vm_compute; reflexivity|]).
  apply elem_of_nil in Hx. destruct Hx.
Qed.

Lemma sample_bucket3_empty : bucket sample_store3 1%nat 5%nat [].
Proof.
  split.
  - vm_compute. reflexivity.
  - vm_compute. discriminate.
  - cbn [chain]. unfold adj. split; vm_compute; reflexivity.
  - apply NoDup_singleton.
  - intros x Hx. apply elem_of_nil in Hx. destruct Hx.
Qed.

Lemma place_moves_between_buckets_witness :
  bucket sample_store3 0%nat 0%nat ([1] ++ 2 :: [3])%nat
  ∧ bucket sample_store3 1%nat 5%nat []
  ∧ ∃ s', place 1%nat (Some 2%nat) sample_store3 = Ok tt s'
          ∧ members s' 0%nat = Some ([1] ++ [3])%nat
          ∧ members s' 1%nat = Some ([] ++ [2])%nat.
Proof.
  split; [exact sample_bucket3|]. split; [exact sample_bucket3_empty|].
  destruct (place_moves_between_buckets sample_store3 0%nat 0%nat [1%nat] 2%nat [3%nat]
              1%nat 5%nat [] sample_bucket3 sample_bucket3_empty) as [Hmv _].
  - discriminate.
  - intros x Hx Hy. apply list_elem_of_singleton in Hy. subst x.
    repeat (apply elem_of_cons in Hx as [Hx|Hx]; [discriminate Hx|]).
    apply elem_of_nil in Hx. destruct Hx.
  - intros y Hy. apply elem_of_nil in Hy. destruct Hy.
  - vm_compute. reflexivity.
  - destruct Hmv as (s' & Hrun & _ & _ & Hm1 & Hm2 & _).
    exists s'. split; [exact Hrun|]. split; [exact Hm1|exact Hm2].
Defined.

Lemma nonempty_length (x : string) : x ≠ "" → String.length x ≠ 0%nat.
Proof. destruct x; [done|]. cbn. lia. Qed.

Lemma status_step_known (cl : client) c node s a i d :
  instances c !! ecs.InstanceId node = Some a →
  insts s !! a = Some i →
  resolve_disk c node = Some d → ecs.DiskId d ≠ "" →
  status_step cl c node s =
    dispatch cl (with_instances (<[ecs.InstanceId node := a]> (instances c)) c) node a
      (set_insts <[a := with_Attrs node (with_Disk d i)]> s).
Proof.
  intros Hidx Hi Hd Hne. unfold resolve_disk in Hd.
  unfold status_step. rewrite Hidx, Hd.
  unfold mbind at 1, M_bind at 1, ret at 1, mret, M_ret.
  unfold mbind at 1, M_bind at 1, modify at 1. rewrite Hi.
  unfold mbind at 1, M_bind at 1, load at 1. cbn [insts set_insts].
  rewrite lookup_insert_eq.
  rewrite bool_decide_eq_false_2 by (cbn; by apply nonempty_length).
  unfold mbind at 1, M_bind at 1, modify at 1. cbn [insts set_insts].
  rewrite lookup_insert_eq.
  unfold set_insts at 1. cbn [insts lists trace set_insts]. rewrite insert_insert_eq.
  reflexivity.
Qed.

Lemma status_step_unknown (cl : client) c node s d :
  instances c !! ecs.InstanceId node = None →
  resolve_disk c node = Some d → ecs.DiskId d ≠ "" →
  let a := fresh (dom (insts s)) in
  status_step cl c node s =
    dispatch cl (with_instances (<[ecs.InstanceId node := a]> (instances c)) c) node a
      (set_insts <[a := with_Attrs node (with_Disk d zeroInstance)]> s).
Proof.
  intros Hidx Hd Hne a. unfold resolve_disk in Hd.
  unfold status_step. rewrite Hidx, Hd.
  unfold mbind at 1, M_bind at 1, new_Instance at 1. fold a.
  unfold mbind at 1, M_bind at 1, modify at 1. cbn [insts set_insts].
  rewrite lookup_insert_eq.
  unfold mbind at 1, M_bind at 1, load at 1. cbn [insts set_insts].
  rewrite lookup_insert_eq.
  rewrite bool_decide_eq_false_2 by (cbn; by apply nonempty_length).
  unfold mbind at 1, M_bind at 1, modify at 1. cbn [insts set_insts].
  rewrite lookup_insert_eq.
  unfold set_insts. cbn [insts lists trace]. rewrite !insert_insert_eq.
  reflexivity.
Qed.

Lemma dispatch_target (cl : client) c node a t s :
  target_bucket c node = Some t →
  dispatch cl c node a s = (place t (Some a) ;; ret c) s.
Proof.
  unfold target_bucket, dispatch. cbv zeta.
  destruct (String.eqb (ecs.Status node) "Running").
  { destruct (used c !! ecs.InstanceId node); [done|]. by intros [= <-]. }
  destruct (String.eqb (ecs.Status node) "Starting"); [by intros [= <-]|].
  destruct (String.eqb (ecs.Status node) "Stopping"); [by intros [= <-]|done].
Qed.

Lemma place_free s a t :
  flist s a = Some None → place t (Some a) s = (Push t (Some a) ;; ret tt) s.
Proof.
  intros H. apply flist_alive in H as (i & Hi & Hl).
  unfold place. rewrite (bind_Ok _ _ _ _ _ (load_alive _ _ _ Hi)). by rewrite Hl.
Qed.

Lemma payload_update s a i (i' : Instance) :
  insts s !! a = Some i →
  next i' = next i → prev i' = prev i → list_ i' = list_ i →
  let s' := set_insts <[a := i']> s in
  (∀ x, fnext s' x = fnext s x) ∧ (∀ x, fprev s' x = fprev s x)
  ∧ (∀ x, flist s' x = flist s x).
Proof.
  intros Hi Hn Hp Hl s'. unfold fnext, fprev, flist, s'. cbn.
  split_and!; intros x; rewrite lookup_insert; case_decide; subst; rewrite ?Hi; cbn; congruence.
Qed.

Lemma Start_alive (cl : client) s a i :
  insts s !! a = Some i →
  let id := ecs.InstanceId (Attrs i) in
  let t1 := trace s ++ [ecs.RemoveTags id] in
  let t2 := t1 ++ [ecs.ReInitDisk (ecs.DiskId (Disk i))] in
  Start cl (Some a) s =
    if negb (String.eqb (ecs.Status (Attrs i)) "Stopped")
    then Ok (Some err_not_stopped) s
    else match cl t1 (ecs.ReInitDisk (ecs.DiskId (Disk i))) with
         | Some e => Ok (Some e) (set_trace (λ _, t2) s)
         | None => Ok (cl (t2 ++ [ecs.Sleep 2]) (ecs.StartInstance id))
                      (set_trace (λ _, (t2 ++ [ecs.Sleep 2]) ++ [ecs.StartInstance id]) s)
         end.
Proof.
  intros Hi id t1 t2. unfold Start. rewrite (bind_Ok _ _ _ _ _ (load_alive _ _ _ Hi)).
  destruct (negb _); [done|].
  unfold provider_call, sleep, mbind, M_bind, ret, mret, M_ret. cbn.
  fold id. fold t1.
  destruct (cl t1 (ecs.ReInitDisk (ecs.DiskId (Disk i)))); done.
Qed.

(** X13. First sighting of an instance. A node of the listing that has no
    record yet and whose disk is found in the cached list gets a new
    record with the node's attributes and that disk; the record is put
    into the index and becomes the last node of the bucket of its
    status (available for Running and not reserved, starting, stopping),
    provided that bucket holds no node with the same identifier.  No
    provider call is made. *)
Theorem status_step_first_sighting (cl : client) c node s d t rt ys :
  instances c !! ecs.InstanceId node = None →
  resolve_disk c node = Some d → ecs.DiskId d ≠ "" →
  target_bucket c node = Some t →
  bucket s t rt ys →
  (∀ y, y ∈ ys → ident s y ≠ Some (ecs.InstanceId node)) →
  Z.of_nat (length ys) < max_int64 →
  let a := fresh (dom (insts s)) in
  ∃ s', status_step cl c node s
          = Ok (with_instances (<[ecs.InstanceId node := a]> (instances c)) c) s'
    ∧ bucket s' t rt (ys ++ [a])
    ∧ members s' t = Some (ys ++ [a])
    ∧ fattrs s' a = Some node ∧ fdisk s' a = Some d
    ∧ trace s' = trace s.
Proof.
  intros Hidx Hd Hne Ht B Hfresh Hfit a.
  rewrite (status_step_unknown cl c node s d Hidx Hd Hne). fold a.
  set (c' := with_instances _ c).
  set (s1 := set_insts _ s).
  assert (Ha : insts s !! a = None) by apply fresh_loc_unused.
  assert (Ha_ring : a ∉ rt :: ys).
  { intros Hin. destruct (bucket_alive s t rt ys a B Hin) as [? ?]. congruence. }
  assert (B1 : bucket s1 t rt ys).
  { apply (bucket_preserved s); [done|done|].
    intros x Hx. unfold s1. cbn. rewrite lookup_insert_ne; [done|]. by intros <-. }
  assert (Hi1 : insts s1 !! a = Some (with_Attrs node (with_Disk d zeroInstance))).
  { unfold s1. cbn. by rewrite lookup_insert_eq. }
  destruct (Push_fresh s1 t rt ys a B1) as (s2 & Hpush & B2 & Fr).
  { eauto. }
  { intros ->. apply Ha_ring. apply elem_of_cons. by left. }
  { intros y Hy. unfold ident at 2, fattrs. rewrite Hi1. cbn.
    assert (ident s1 y = ident s y) as ->; [|by apply Hfresh].
    unfold ident, fattrs, s1. cbn. rewrite lookup_insert_ne; [done|].
    intros <-. apply Ha_ring. apply elem_of_cons. by right. }
  { done. }
  exists s2. split_and!.
  - rewrite (dispatch_target cl c' node a t s1 Ht).
    unfold mbind at 1, M_bind at 1. rewrite place_free.
    + by rewrite (bind_Ok _ _ _ _ _ Hpush).
    + unfold flist. by rewrite Hi1.
  - done.
  - by eapply bucket_members.
  - rewrite (frame_attrs _ _ _ _ Fr). unfold fattrs. by rewrite Hi1.
  - rewrite (frame_disk _ _ _ _ Fr). unfold fdisk. by rewrite Hi1.
  - by rewrite (frame_trace _ _ _ _ Fr).
Qed.

Lemma status_step_first_sighting_witness :
  ∃ s', status_step ok_client sample_cluster_disks (ecs.mkAttrs "i-9" "img-9" "Starting") sample_store3
          = Ok (with_instances (<["i-9" := fresh (dom (insts sample_store3))]>
                                  (instances sample_cluster_disks)) sample_cluster_disks) s'
    ∧ members s' 1%nat = Some ([] ++ [fresh (dom (insts sample_store3))]).
Proof.
  destruct (status_step_first_sighting ok_client sample_cluster_disks
              (ecs.mkAttrs "i-9" "img-9" "Starting") sample_store3
              (ecs.mkDisk "d-9" "i-9") 1%nat 5%nat [])
    as (s' & Hrun & _ & Hm & _).
  - vm_compute. reflexivity.
  - vm_compute. reflexivity.
  - discriminate.
  - vm_compute. reflexivity.
  - exact sample_bucket3_empty.
  - intros y Hy. apply elem_of_nil in Hy. destruct Hy.
  - vm_compute. reflexivity.
  - exists s'. split; [exact Hrun|exact Hm].
Defined.

Lemma dispatch_stopped (cl : client) c node a s :
  ecs.Status node = "Stopped" →
  dispatch cl c node a s = (unlink (Some a) ;; Start cl (Some a) ;; ret c) s.
Proof. intros H. unfold dispatch. cbv zeta. rewrite H. reflexivity. Qed.

Lemma record_alive s a n d :
  fattrs s a = Some n → fdisk s a = Some d →
  ∃ i, insts s !! a = Some i ∧ Attrs i = n ∧ Disk i = d.
Proof.
  unfold fattrs, fdisk. destruct (insts s !! a) as [i|]; [|done].
  cbn. intros [= <-] [= <-]. eauto.
Qed.

Lemma status_step_known_stored (cl : client) c node s a i :
  instances c !! ecs.InstanceId node = Some a →
  insts s !! a = Some i →
  ecs.DiskId (disk_after_lookup c node i) ≠ "" →
  status_step cl c node s =
    dispatch cl (with_instances (<[ecs.InstanceId node := a]> (instances c)) c) node a
      (set_insts <[a := with_Attrs node (with_Disk (disk_after_lookup c node i) i)]> s).
Proof.
  intros Hidx Hi. unfold disk_after_lookup.
  destruct (resolve_disk c node) as [d|] eqn:Hd; intros Hne.
  - by apply status_step_known.
  - unfold resolve_disk in Hd.
    unfold status_step. rewrite Hidx, Hd.
    unfold mbind at 1, M_bind at 1, ret at 1, mret, M_ret.
    unfold mbind at 1, M_bind at 1, ret at 1, mret, M_ret.
    unfold mbind at 1, M_bind at 1, load at 1. rewrite Hi.
    rewrite bool_decide_eq_false_2 by (by apply nonempty_length).
    unfold mbind at 1, M_bind at 1, modify at 1. rewrite Hi.
    reflexivity.
Qed.

(** X14. An instance reported Stopped is taken out of its bucket and
    started again.  Take a node of the listing with status Stopped
    whose record is known and stands in a bucket, and whose disk id is
    not empty once the cached disk list has been looked up: the listed
    disk if one is attached to the instance, else the disk the record
    already had.  The status step stores the node's attributes and that
    disk, unlinks the record from the bucket, and calls [Start]: the
    used tag is removed, the disk is re-initialised and, if that
    succeeds, the instance is started after a pause of two seconds.
    The step succeeds whatever the provider answers, and the record
    stays in the index. *)
Theorem status_step_restarts_stopped (cl : client) c node s a i l r pre post :
  instances c !! ecs.InstanceId node = Some a →
  insts s !! a = Some i →
  ecs.DiskId (disk_after_lookup c node i) ≠ "" →
  ecs.Status node = "Stopped" →
  bucket s l r (pre ++ a :: post) →
  let id := ecs.InstanceId node in
  let d := disk_after_lookup c node i in
  let t1 := trace s ++ [ecs.RemoveTags id] in
  let t2 := t1 ++ [ecs.ReInitDisk (ecs.DiskId d)] in
  ∃ s', status_step cl c node s
          = Ok (with_instances (<[id := a]> (instances c)) c) s'
    ∧ bucket s' l r (pre ++ post)
    ∧ flist s' a = Some None
    ∧ fattrs s' a = Some node ∧ fdisk s' a = Some d
    ∧ trace s' = match cl t1 (ecs.ReInitDisk (ecs.DiskId d)) with
                 | Some _ => t2
                 | None => (t2 ++ [ecs.Sleep 2]) ++ [ecs.StartInstance id]
                 end.
Proof.
  intros Hidx Hi Hne Hst B id d t1 t2.
  rewrite (status_step_known_stored cl c node s a i Hidx Hi Hne).
  fold id d. set (c' := with_instances _ c).
  set (s1 := set_insts _ s).
  destruct (payload_update s a i (with_Attrs node (with_Disk d i)) Hi eq_refl eq_refl eq_refl)
    as (Pn & Pp & Pl).
  fold s1 in Pn, Pp, Pl.
  assert (B1 : bucket s1 l r (pre ++ a :: post)).
  { apply (bucket_fields s); [done|done| | |]; intros x _; [apply Pn|apply Pp|apply Pl]. }
  assert (Hi1 : insts s1 !! a = Some (with_Attrs node (with_Disk d i))).
  { unfold s1. cbn. by rewrite lookup_insert_eq. }
  destruct (unlink_member s1 l r pre a post B1) as (s2 & Hun & B2 & _ & _ & Fl & Fr).
  assert (Ha2 : fattrs s2 a = Some node).
  { rewrite (frame_attrs _ _ _ _ Fr). unfold fattrs. by rewrite Hi1. }
  assert (Hd2 : fdisk s2 a = Some d).
  { rewrite (frame_disk _ _ _ _ Fr). unfold fdisk. by rewrite Hi1. }
  destruct (record_alive s2 a node d Ha2 Hd2) as (i2 & Hi2 & HA & HD).
  assert (Ht2 : trace s2 = trace s).
  { by rewrite (frame_trace _ _ _ _ Fr). }
  pose proof (Start_alive cl s2 a i2 Hi2) as HS. cbv zeta in HS.
  rewrite HA, HD, Hst, Ht2 in HS. cbn [negb String.eqb Ascii.eqb Bool.eqb] in HS.
  fold id t1 t2 in HS.
  assert (Hrun : dispatch cl c' node a s1
                 = (r ← Start cl (Some a) ; (λ _, ret c') r) s2).
  { rewrite (dispatch_stopped cl c' node a s1 Hst).
    by rewrite (bind_Ok _ _ _ _ _ Hun). }
  rewrite Hrun. unfold mbind at 1, M_bind at 1. rewrite HS.
  destruct (cl t1 (ecs.ReInitDisk (ecs.DiskId d))) as [e|].
  - eexists. split; [reflexivity|]. split_and!.
    + by apply bucket_set_trace.
    + exact Fl.
    + exact Ha2.
    + exact Hd2.
    + reflexivity.
  - eexists. split; [reflexivity|]. split_and!.
    + by apply bucket_set_trace.
    + exact Fl.
    + exact Ha2.
    + exact Hd2.
    + reflexivity.
Qed.

Lemma status_step_restarts_stopped_witness :
  resolve_disk sample_cluster (ecs.mkAttrs "i-b" "img-2" "Stopped") = None
  ∧ ∃ s', status_step ok_client sample_cluster (ecs.mkAttrs "i-b" "img-2" "Stopped") sample_store
          = Ok (with_instances (<["i-b" := 2%nat]> (instances sample_cluster))
                  sample_cluster) s'
    ∧ members s' 0%nat = Some ([1] ++ [3])%nat
    ∧ flist s' 2%nat = Some None
    ∧ trace s' = [ecs.RemoveTags "i-b"; ecs.ReInitDisk "d-b"; ecs.Sleep 2; ecs.StartInstance "i-b"].
Proof.
  split; [reflexivity|].
  destruct (status_step_restarts_stopped ok_client sample_cluster
              (ecs.mkAttrs "i-b" "img-2" "Stopped") sample_store 2%nat
              (mkInstance (ecs.mkAttrs "i-b" "img-2" "Running") (ecs.mkDisk "d-b" "i-b")
                 (Some 3%nat) (Some 1%nat) (Some 0%nat))
              0%nat 0%nat [1%nat] [3%nat])
    as (s' & Hrun & B & Hl & _ & _ & Ht).
  - vm_compute. reflexivity.
  - vm_compute. reflexivity.
  - discriminate.
  - reflexivity.
  - exact sample_bucket.
  - exists s'. split; [exact Hrun|]. split; [exact (bucket_members _ _ _ _ B)|].
    split; [exact Hl|exact Ht].
Defined.

Lemma payload_ident s a (i' : Instance) y :
  y ≠ a → ident (set_insts <[a := i']> s) y = ident s y.
Proof.
  intros Hy. unfold ident, fattrs. cbn. by rewrite lookup_insert_ne.
Qed.

Lemma payload_bucket s a i (i' : Instance) l r xs :
  insts s !! a = Some i →
  next i' = next i → prev i' = prev i → list_ i' = list_ i →
  bucket s l r xs → bucket (set_insts <[a := i']> s) l r xs.
Proof.
  intros Hi Hn Hp Hl B.
  destruct (payload_update s a i i' Hi Hn Hp Hl) as (Pn & Pp & Pl).
  apply (bucket_fields s); [done|done| | |]; intros x _; [apply Pn|apply Pp|apply Pl].
Qed.

(** X15. An instance whose status changed moves to the bucket of its
    new status.  Take a node of the listing whose record is known and
    stands in bucket [l], whose status selects another bucket [t]
    (available for Running and not reserved, starting, stopping), and
    whose disk id is not empty once the cached disk list has been
    looked up: the listed disk if one is attached to the instance, else
    the disk the record already had.  The status step stores the node's
    attributes and that disk, takes the record out of [l] and appends
    it to [t], provided [t] holds no node with the same identifier. No
    provider call is made. *)
Theorem status_step_moves_known (cl : client) c node s a i l r pre post t rt ys :
  instances c !! ecs.InstanceId node = Some a →
  insts s !! a = Some i →
  ecs.DiskId (disk_after_lookup c node i) ≠ "" →
  target_bucket c node = Some t →
  bucket s l r (pre ++ a :: post) →
  bucket s t rt ys →
  l ≠ t →
  (∀ x, x ∈ r :: pre ++ a :: post → x ∉ rt :: ys) →
  (∀ y, y ∈ ys → ident s y ≠ Some (ecs.InstanceId node)) →
  Z.of_nat (length ys) < max_int64 →
  ∃ s', status_step cl c node s
          = Ok (with_instances (<[ecs.InstanceId node := a]> (instances c)) c) s'
    ∧ bucket s' l r (pre ++ post)
    ∧ bucket s' t rt (ys ++ [a])
    ∧ fattrs s' a = Some node ∧ fdisk s' a = Some (disk_after_lookup c node i)
    ∧ trace s' = trace s.
Proof.
  intros Hidx Hi Hne Ht B Bt Hlt Hdisj Hfresh Hfit.
  assert (Hin : a ∈ r :: pre ++ a :: post).
  { clear. set_solver. }
  rewrite (status_step_known_stored cl c node s a i Hidx Hi Hne).
  set (d := disk_after_lookup c node i).
  set (c' := with_instances _ c).
  set (s1 := set_insts _ s).
  assert (B1 : bucket s1 l r (pre ++ a :: post)).
  { by apply (payload_bucket s a i). }
  assert (Bt1 : bucket s1 t rt ys).
  { by apply (payload_bucket s a i). }
  assert (Hi1 : insts s1 !! a = Some (with_Attrs node (with_Disk d i))).
  { unfold s1. cbn. by rewrite lookup_insert_eq. }
  destruct (place_move s1 l r pre a post t rt ys B1 Bt1 Hlt Hdisj)
    as (s2 & Hpl & B2 & Bt2 & Htr & Hat & Hdk & _).
  { intros y Hy. unfold ident at 2, fattrs. rewrite Hi1. cbn.
    unfold s1. rewrite payload_ident; [by apply Hfresh|].
    intros ->. apply (Hdisj a Hin). apply elem_of_cons. by right. }
  { done. }
  exists s2. split_and!.
  - rewrite (dispatch_target cl c' node a t s1 Ht).
    by rewrite (bind_Ok _ _ _ _ _ Hpl).
  - done.
  - done.
  - rewrite Hat. unfold fattrs. by rewrite Hi1.
  - rewrite Hdk. unfold fdisk. by rewrite Hi1.
  - by rewrite Htr.
Qed.

Lemma status_step_moves_known_witness :
  resolve_disk sample_cluster (ecs.mkAttrs "i-b" "img-2" "Starting") = None
  ∧ ∃ s', status_step ok_client sample_cluster (ecs.mkAttrs "i-b" "img-2" "Starting") sample_store3
          = Ok (with_instances (<["i-b" := 2%nat]> (instances sample_cluster))
                  sample_cluster) s'
    ∧ members s' 0%nat = Some ([1] ++ [3])%nat
    ∧ members s' 1%nat = Some ([] ++ [2])%nat
    ∧ fdisk s' 2%nat = Some (ecs.mkDisk "d-b" "i-b").
Proof.
  split; [reflexivity|].
  destruct (status_step_moves_known ok_client sample_cluster
              (ecs.mkAttrs "i-b" "img-2" "Starting") sample_store3 2%nat
              (mkInstance (ecs.mkAttrs "i-b" "img-2" "Running") (ecs.mkDisk "d-b" "i-b")
                 (Some 3%nat) (Some 1%nat) (Some 0%nat))
              0%nat 0%nat [1%nat] [3%nat] 1%nat 5%nat [])
    as (s' & Hrun & B0 & B1 & _ & Hd & _).
  - vm_compute. reflexivity.
  - vm_compute. reflexivity.
  - discriminate.
  - vm_compute. reflexivity.
  - exact sample_bucket3.
  - exact sample_bucket3_empty.
  - discriminate.
  - intros x Hx Hy. apply list_elem_of_singleton in Hy. subst x.
    repeat (apply elem_of_cons in Hx as [Hx|Hx]; [discriminate Hx|]).
    apply elem_of_nil in Hx. destruct Hx.
  - intros y Hy. apply elem_of_nil in Hy. destruct Hy.
  - vm_compute. reflexivity.
  - exists s'. split; [exact Hrun|].
    split; [exact (bucket_members _ _ _ _ B0)|].
    split; [exact (bucket_members _ _ _ _ B1)|exact Hd].
Defined.

(** X16. A reserved Running instance is left where it stands.  Take a
    node of the listing with status Running whose identifier is in the
    used map, whose record is known, and whose disk id is not empty
    once the cached disk list has been looked up: the listed disk if
    one is attached to the instance, else the disk the record already
    had.  The status step stores the node's attributes and that disk in
    the record, points the used map and the index at the record, and
    touches no list: every bucket of the store is the same bucket
    afterwards, also one the record is a member of.  No provider call
    is made.  (With an empty disk id the step is a skip, and not even
    the attributes are stored.) *)
Theorem status_step_reserved_running (cl : client) c node s a i u :
  instances c !! ecs.InstanceId node = Some a →
  insts s !! a = Some i →
  ecs.Status node = "Running" →
  used c !! ecs.InstanceId node = Some u →
  let id := ecs.InstanceId node in
  let d := disk_after_lookup c node i in
  let s' := set_insts <[a := with_Attrs node (with_Disk d i)]> s in
  (ecs.DiskId d ≠ "" →
     status_step cl c node s
       = Ok (with_used (<[id := a]> (used c)) (with_instances (<[id := a]> (instances c)) c)) s'
     ∧ (∀ l r xs, bucket s l r xs → bucket s' l r xs)
     ∧ flist s' a = flist s a
     ∧ fattrs s' a = Some node ∧ fdisk s' a = Some d
     ∧ lists s' = lists s ∧ trace s' = trace s)
  ∧ (ecs.DiskId d = "" →
     status_step cl c node s = Ok c (set_insts <[a := with_Disk d i]> s)
     ∧ fattrs (set_insts <[a := with_Disk d i]> s) a = Some (Attrs i)).
Proof.
  intros Hidx Hi Hst Hu id d s'. subst id. split.
  - intros Hne. split_and!.
    + rewrite (status_step_known_stored cl c node s a i Hidx Hi Hne).
      unfold dispatch. cbv zeta. rewrite Hst. cbn [String.eqb Ascii.eqb Bool.eqb].
      cbn [used with_instances]. by rewrite Hu.
    + intros l r xs B. by apply (payload_bucket s a i).
    + by destruct (payload_update s a i (with_Attrs node (with_Disk d i)) Hi eq_refl eq_refl eq_refl)
        as (_ & _ & ->).
    + unfold s', fattrs. cbn. by rewrite lookup_insert_eq.
    + unfold s', fdisk. cbn. by rewrite lookup_insert_eq.
    + done.
    + done.
  - intros Hblank. split.
    + unfold d, disk_after_lookup, resolve_disk in *.
      unfold status_step. rewrite Hidx.
      unfold mbind at 1, M_bind at 1, ret at 1, mret, M_ret.
      destruct (List.find _ (disks c)) as [d0|] eqn:Hd.
      * unfold mbind at 1, M_bind at 1, modify at 1. rewrite Hi.
        unfold mbind at 1, M_bind at 1, load at 1. cbn [insts set_insts].
        rewrite lookup_insert_eq.
        rewrite bool_decide_eq_true_2; [done|]. cbn. by rewrite Hblank.
      * unfold mbind at 1, M_bind at 1, ret at 1, mret, M_ret.
        unfold mbind at 1, M_bind at 1, load at 1. rewrite Hi.
        rewrite bool_decide_eq_true_2 by (by rewrite Hblank).
        unfold ret, mret, M_ret. f_equal.
        destruct s as [h L t]. unfold set_insts. cbn in *. f_equal.
        symmetry. apply insert_id. rewrite Hi. by destruct i.
    + unfold fattrs. cbn. by rewrite lookup_insert_eq.
Qed.

Lemma status_step_reserved_running_witness :
  let c := with_used {["i-b" := 2%nat]} sample_cluster_disks in
  ∃ s', status_step ok_client c (ecs.mkAttrs "i-b" "img-2" "Running") sample_store
          = Ok (with_used (<["i-b" := 2%nat]> (used c))
                  (with_instances (<["i-b" := 2%nat]> (instances c)) c)) s'
    ∧ bucket s' 0%nat 0%nat ([1] ++ 2 :: [3])%nat.
Proof.
  intros c.
  destruct (status_step_reserved_running ok_client c
              (ecs.mkAttrs "i-b" "img-2" "Running") sample_store 2%nat
              (mkInstance (ecs.mkAttrs "i-b" "img-2" "Running") (ecs.mkDisk "d-b" "i-b")
                 (Some 3%nat) (Some 1%nat) (Some 0%nat))
              2%nat)
    as ((Hrun & HB & _) & _).
  - vm_compute. reflexivity.
  - vm_compute. reflexivity.
  - reflexivity.
  - vm_compute. reflexivity.
  - discriminate.
  - eexists. split; [exact Hrun|]. apply HB. exact sample_bucket.
Defined.



Lemma kept_refl s : kept s s.
Proof. by intros x i. Qed.

Lemma kept_trans s1 s2 s3 : kept s1 s2 → kept s2 s3 → kept s1 s3.
Proof. intros H1 H2 x i Hx. apply H2. by apply H1. Qed.

Lemma kept_new s i' :
  kept s (set_insts <[fresh (dom (insts s)) := i']> s).
Proof.
  intros x i Hx. cbn. rewrite lookup_insert_ne; [done|].
  intros <-. rewrite fresh_loc_unused in Hx. done.
Qed.

Lemma bucket_kept s s' l r xs :
  bucket s l r xs → lists s' = lists s → kept s s' → bucket s' l r xs.
Proof.
  intros B HL Hk. apply (bucket_preserved s); [done|by rewrite HL|].
  intros x Hx. destruct (bucket_alive s l r xs x B Hx) as [i Hi].
  rewrite Hi. by apply Hk.
Qed.

Lemma status_step_skip (cl : client) c node s :
  (∀ d, d ∈ disks c → ecs.DiskInstanceId d ≠ ecs.InstanceId node) →
  (∀ a, instances c !! ecs.InstanceId node = Some a →
        ∃ i, insts s !! a = Some i ∧ ecs.DiskId (Disk i) = "") →
  ∃ s', status_step cl c node s = Ok c s'
    ∧ lists s' = lists s ∧ trace s' = trace s ∧ kept s s'.
Proof.
  intros Hdisk Hrec. unfold status_step.
  rewrite (find_no_disk _ _ Hdisk).
  destruct (instances c !! ecs.InstanceId node) as [a|] eqn:Hidx.
  - destruct (Hrec a eq_refl) as (i & Hi & Hd).
    exists s. split_and!; [|done|done|apply kept_refl].
    unfold mbind, M_bind, ret, mret, M_ret, load. rewrite Hi.
    rewrite Hd. done.
  - set (a := fresh (dom (insts s))).
    exists (set_insts <[a := zeroInstance]> s). split_and!.
    + unfold mbind, M_bind, ret, mret, M_ret, load, new_Instance. fold a. cbn.
      rewrite lookup_insert_eq. done.
    + done.
    + done.
    + apply kept_new.
Qed.

Lemma status_all_skip (cl : client) c nodes s :
  (∀ node d, node ∈ nodes → d ∈ disks c → ecs.DiskInstanceId d ≠ ecs.InstanceId node) →
  (∀ node a, node ∈ nodes → instances c !! ecs.InstanceId node = Some a →
        ∃ i, insts s !! a = Some i ∧ ecs.DiskId (Disk i) = "") →
  ∃ s', status_all cl c nodes s = Ok c s'
    ∧ lists s' = lists s ∧ trace s' = trace s ∧ kept s s'.
Proof.
  unfold status_all. revert s.
  induction nodes as [|node nodes IH]; intros s Hdisk Hrec.
  - exists s. split_and!; [done|done|done|apply kept_refl].
  - destruct (status_step_skip cl c node s) as (s1 & Hrun & HL & Ht & Hk).
    { intros d Hd. apply Hdisk; [|done]. apply elem_of_cons. by left. }
    { intros a Ha. apply (Hrec node); [|done]. apply elem_of_cons. by left. }
    destruct (IH s1) as (s2 & Hrun2 & HL2 & Ht2 & Hk2).
    { intros n d Hn. apply Hdisk. apply elem_of_cons. by right. }
    { intros n a Hn Ha. destruct (Hrec n a) as (i & Hi & Hd); [|done|].
      - apply elem_of_cons. by right.
      - exists i. split; [by apply Hk|done]. }
    exists s2. split_and!.
    + cbn [foldM]. by rewrite (bind_Ok _ _ _ _ _ Hrun).
    + by rewrite HL2.
    + by rewrite Ht2.
    + by eapply kept_trans.
Qed.

(** X18. Without a disk no instance is filed.  When no disk of the cached
    list is attached to any node of the instance listing, and the
    records the index has for these nodes carry no disk id, the whole
    status loop changes nothing a caller can see: the cluster (index
    and used map) is returned as it was, every bucket is the bucket it
    was before, no object that existed is changed, and no provider call
    is made, whatever the statuses in the listing are. *)
Theorem status_all_without_disks (cl : client) c nodes s :
  (∀ node d, node ∈ nodes → d ∈ disks c → ecs.DiskInstanceId d ≠ ecs.InstanceId node) →
  (∀ node a, node ∈ nodes → instances c !! ecs.InstanceId node = Some a →
        ∃ i, insts s !! a = Some i ∧ ecs.DiskId (Disk i) = "") →
  ∃ s', status_all cl c nodes s = Ok c s'
    ∧ (∀ l r xs, bucket s l r xs → bucket s' l r xs)
    ∧ lists s' = lists s
    ∧ (∀ x i, insts s !! x = Some i → insts s' !! x = Some i)
    ∧ trace s' = trace s.
Proof.
  intros Hdisk Hrec.
  destruct (status_all_skip cl c nodes s Hdisk Hrec) as (s' & Hrun & HL & Ht & Hk).
  exists s'. split_and!; try done.
  intros l r xs B. by apply (bucket_kept s).
Qed.

Lemma status_all_without_disks_witness :
  ∃ s', status_all failing_client sample_cluster
          [ecs.mkAttrs "i-y" "img-1" "Running"; ecs.mkAttrs "i-z" "img-2" "Stopped"] sample_store
          = Ok sample_cluster s'
    ∧ bucket s' 0%nat 0%nat ([1] ++ 2 :: [3])%nat
    ∧ trace s' = trace sample_store.
Proof.
  destruct (status_all_without_disks failing_client sample_cluster
              [ecs.mkAttrs "i-y" "img-1" "Running"; ecs.mkAttrs "i-z" "img-2" "Stopped"]
              sample_store)
    as (s' & Hrun & HB & _ & _ & Ht).
  - intros node d _ Hd. apply elem_of_nil in Hd. destruct Hd.
  - intros node a Hn Ha.
    apply elem_of_cons in Hn as [->|Hn]; [vm_compute in Ha; discriminate Ha|].
    apply elem_of_cons in Hn as [->|Hn]; [vm_compute in Ha; discriminate Ha|].
    apply elem_of_nil in Hn. destruct Hn.
  - exists s'. split; [exact Hrun|]. split; [exact (HB _ _ _ sample_bucket)|exact Ht].
Defined.

Lemma reserve_step_free c resource s :
  unfiled c s →
  ∃ c' s', reserve_step c resource s = Ok c' s'
    ∧ unfiled c' s'
    ∧ lists s' = lists s ∧ trace s' = trace s ∧ kept s s'
    ∧ starting c' = starting c ∧ avavilable c' = avavilable c ∧ stopping c' = stopping c
    ∧ disks c' = disks c
    ∧ dom (instances c') = {[ecs.ResourceId resource]} ∪ dom (instances c)
    ∧ dom (used c') = {[ecs.ResourceId resource]} ∪ dom (used c).
Proof.
  intros Hu. unfold reserve_step. cbv zeta.
  destruct (instances c !! ecs.ResourceId resource) as [a|] eqn:Hidx.
  - destruct (Hu _ _ Hidx) as (i & Hi & _ & Hl).
    assert (Hf : flist s a = Some None).
    { unfold flist. by rewrite Hi, <- Hl. }
    exists (with_used (<[ecs.ResourceId resource := a]> (used c)) c), s.
    split_and!; try done.
    + by rewrite (bind_Ok _ _ _ _ _ (unlink_free s a Hf)).
    + apply kept_refl.
    + cbn. assert (ecs.ResourceId resource ∈ dom (instances c)) as Hin.
      { apply elem_of_dom. eauto. }
      clear -Hin. set_solver.
    + cbn. apply dom_insert_L.
  - set (a := fresh (dom (insts s))).
    exists (with_used (<[ecs.ResourceId resource := a]> (used c))
              (with_instances (<[ecs.ResourceId resource := a]> (instances c)) c)),
           (set_insts <[a := zeroInstance]> s).
    split_and!; try done.
    + intros id b Hb. cbn in Hb. cbn.
      destruct (decide (id = ecs.ResourceId resource)) as [->|Hne].
      * rewrite lookup_insert_eq in Hb. injection Hb as <-.
        rewrite lookup_insert_eq. by exists zeroInstance.
      * rewrite lookup_insert_ne in Hb by done.
        destruct (Hu _ _ Hb) as (i & Hi & Hd & Hl).
        exists i. split; [|done]. by apply (kept_new s zeroInstance).
    + apply kept_new.
    + cbn. apply dom_insert_L.
    + cbn. apply dom_insert_L.
Qed.

Lemma reserve_all_free c resources s :
  unfiled c s →
  ∃ c' s', reserve_all c resources s = Ok c' s'
    ∧ unfiled c' s'
    ∧ lists s' = lists s ∧ trace s' = trace s ∧ kept s s'
    ∧ starting c' = starting c ∧ avavilable c' = avavilable c ∧ stopping c' = stopping c
    ∧ disks c' = disks c
    ∧ dom (instances c') = list_to_set (ecs.ResourceId <$> resources) ∪ dom (instances c)
    ∧ dom (used c') = list_to_set (ecs.ResourceId <$> resources) ∪ dom (used c).
Proof.
  unfold reserve_all. revert c s.
  induction resources as [|res resources IH]; intros c s Hu.
  - exists c, s. split_and!; try done; [apply kept_refl| |]; cbn; clear; set_solver.
  - destruct (reserve_step_free c res s Hu)
      as (c1 & s1 & Hrun & Hu1 & HL & Ht & Hk & E1 & E2 & E3 & E4 & D1 & D2).
    destruct (IH c1 s1 Hu1)
      as (c2 & s2 & Hrun2 & Hu2 & HL2 & Ht2 & Hk2 & F1 & F2 & F3 & F4 & G1 & G2).
    exists c2, s2. split_and!.
    + cbn [foldM]. by rewrite (bind_Ok _ _ _ _ _ Hrun).
    + done.
    + by rewrite HL2.
    + by rewrite Ht2.
    + by eapply kept_trans.
    + by rewrite F1.
    + by rewrite F2.
    + by rewrite F3.
    + by rewrite F4.
    + rewrite G1, D1. cbn. clear. set_solver.
    + rewrite G2, D2. cbn. clear. set_solver.
Qed.

Lemma RefreshDisks_fetched c (dl : paged ecs.DiskItemType) ds :
  fetch dl = inr ds → RefreshDisks c dl = (None, with_disks ds c).
Proof.
  unfold fetch, RefreshDisks. destruct (first_page dl) as [e|p1]; [done|].
  destruct (next_pages p1 (more_pages dl)) as [all [e|]]; [done|].
  by intros [= ->].
Qed.

Lemma NewInstanceList_next s l r :
  bucket s l r [] →
  ∃ l' r' s', NewInstanceList s = Ok l' s'
    ∧ l' ≠ l ∧ lists s !! l' = None
    ∧ bucket s' l' r' []
    ∧ lists s' !! l = lists s !! l
    ∧ trace s' = trace s
    ∧ (∀ l0 r0, l0 ≠ l' → bucket s l0 r0 [] → bucket s' l0 r0 []).
Proof.
  intros B.
  destruct (NewInstanceList_spec s) as (l' & r' & s' & Hrun & Hl & Hr & B' & Ht & HL & Hobj).
  assert (Hne : l' ≠ l).
  { intros ->. rewrite (bucket_list _ _ _ _ B) in Hl. done. }
  exists l', r', s'. split_and!; try done.
  - by apply HL.
  - intros l0 r0 Hl0 B0. apply (bucket_preserved s); [done|by apply HL|].
    intros x Hx. apply Hobj. intros ->.
    destruct (bucket_alive s l0 r0 [] r' B0 Hx) as [i Hi]. congruence.
Qed.

(** X19. A cluster built without disks has three empty buckets.  When the
    disk listing succeeds and delivers no disk, and the two other
    listings succeed, [NewCluster] returns a cluster whose starting,
    available and stopping lists are three different, empty buckets,
    whatever instances the provider reports and whatever their statuses
    are; the index and the used map hold exactly the identifiers of the
    tag listing, and no provider call other than the listings is made. *)
Theorem NewCluster_without_disks (cl : client) dl il tl s nodes resources :
  fetch dl = inr [] → fetch il = inr nodes → fetch tl = inr resources →
  ∃ c s' r1 r2 r3,
    NewCluster cl dl il tl s = Ok (inr c) s'
    ∧ bucket s' (starting c) r1 []
    ∧ bucket s' (avavilable c) r2 []
    ∧ bucket s' (stopping c) r3 []
    ∧ starting c ≠ avavilable c ∧ starting c ≠ stopping c ∧ avavilable c ≠ stopping c
    ∧ dom (instances c) = list_to_set (ecs.ResourceId <$> resources)
    ∧ dom (used c) = list_to_set (ecs.ResourceId <$> resources)
    ∧ disks c = []
    ∧ trace s' = trace s.
Proof.
  intros Hdl Hil Htl.
  destruct (NewInstanceList_spec s) as (l1 & r1 & s1 & Hrun1 & Hl1 & _ & B1 & Ht1 & HL1 & _).
  destruct (NewInstanceList_next s1 l1 r1 B1)
    as (l2 & r2 & s2 & Hrun2 & N21 & Hl2 & B2 & _ & Ht2 & Keep2).
  destruct (NewInstanceList_next s2 l2 r2 B2)
    as (l3 & r3 & s3 & Hrun3 & N32 & Hl3 & B3 & _ & Ht3 & Keep3).
  assert (B12 : bucket s2 l1 r1 []).
  { apply Keep2; [by apply not_eq_sym|done]. }
  assert (N31 : l3 ≠ l1).
  { intros ->. rewrite (bucket_list _ _ _ _ B12) in Hl3. done. }
  assert (B13 : bucket s3 l1 r1 []) by (by apply Keep3; [apply not_eq_sym|]).
  assert (B23 : bucket s3 l2 r2 []) by (by apply Keep3; [apply not_eq_sym|]).
  set (c0 := with_disks [] (mkCluster l1 l2 l3 ∅ [] ∅)).
  assert (Hu0 : unfiled c0 s3).
  { intros id a Ha. cbn in Ha. by rewrite lookup_empty in Ha. }
  destruct (reserve_all_free c0 resources s3 Hu0)
    as (c1 & s4 & Hres & Hu1 & HL4 & Ht4 & Hk4 & E1 & E2 & E3 & E4 & D1 & D2).
  destruct (status_all_skip cl c1 nodes s4) as (s5 & Hst & HL5 & Ht5 & Hk5).
  { intros node d _ Hd. rewrite E4 in Hd. cbn in Hd. by apply elem_of_nil in Hd. }
  { intros node a _ Ha. destruct (Hu1 _ _ Ha) as (i & Hi & Hd & _). eauto. }
  assert (HL : lists s5 = lists s3) by (by rewrite HL5).
  assert (Hk : kept s3 s5) by (by eapply kept_trans).
  exists c1, s5, r1, r2, r3. split_and!.
  - unfold NewCluster.
    rewrite (bind_Ok _ _ _ _ _ Hrun1), (bind_Ok _ _ _ _ _ Hrun2), (bind_Ok _ _ _ _ _ Hrun3).
    cbv zeta. rewrite (RefreshDisks_fetched _ dl [] Hdl). fold c0.
    unfold mbind at 1, M_bind at 1.
    rewrite (RefreshInstances_fetched cl c0 il tl s3 nodes resources Hil Htl).
    rewrite (bind_Ok _ _ _ _ _ Hres), (bind_Ok _ _ _ _ _ Hst). done.
  - rewrite E1. by apply (bucket_kept s3).
  - rewrite E2. by apply (bucket_kept s3).
  - rewrite E3. by apply (bucket_kept s3).
  - rewrite E1, E2. cbn. by apply not_eq_sym.
  - rewrite E1, E3. cbn. by apply not_eq_sym.
  - rewrite E2, E3. cbn. by apply not_eq_sym.
  - rewrite D1. cbn. rewrite dom_empty_L. clear. set_solver.
  - rewrite D2. cbn. rewrite dom_empty_L. clear. set_solver.
  - by rewrite E4.
  - by rewrite Ht5, Ht4, Ht3, Ht2, Ht1.
Qed.

Lemma NewCluster_without_disks_witness :
  ∃ c s', NewCluster failing_client no_disks (i1_reported "Running") tag_of_i1 empty_store
            = Ok (inr c) s'
    ∧ members s' (avavilable c) = Some []
    ∧ dom (used c) = list_to_set (ecs.ResourceId <$> [ecs.mkResource "i-1"]).
Proof.
  destruct (NewCluster_without_disks failing_client no_disks (i1_reported "Running") tag_of_i1
              empty_store [ecs.mkAttrs "i-1" "img" "Running"] [ecs.mkResource "i-1"])
    as (c & s' & r1 & r2 & r3 & Hrun & _ & B2 & _ & _ & _ & _ & _ & Hd & _).
  - reflexivity.
  - reflexivity.
  - reflexivity.
  - exists c, s'. split; [exact Hrun|].
    split; [exact (bucket_members _ _ _ _ B2)|exact Hd].
Defined.

Lemma Find_at s l r pre n post imageId :
  bucket s l r (pre ++ n :: post) →
  (∀ x, x ∈ pre → image s x ≠ Some imageId) →
  image s n = Some imageId →
  ∃ s', Find l imageId s = Ok (Some n) s'
    ∧ bucket s' l r (pre ++ post)
    ∧ flist s' n = Some None
    ∧ frame s s' l [lastd r pre; n; hd r post].
Proof.
  intros B Hpre Hn. pose proof (bucket_nodup _ _ _ _ B) as Hnd.
  destruct (NoDup_ring_split _ _ _ _ Hnd) as (Hr1 & Hr2 & _).
  destruct (Remove_bucket s l r pre n post B) as (s' & Hrm & B' & Fn & Fp & Fl & Fr).
  exists s'. split_and!; try done.
  rewrite (Find_enter s l r _ imageId B).
  replace (hd r (pre ++ n :: post)) with (hd n pre) by (destruct pre; done).
  rewrite (Find_scan_hit s l r imageId pre n post r); try done.
  - apply B.
  - pose proof (bucket_bound _ _ _ _ B) as Hb. rewrite length_app in Hb. lia.
Qed.

(** X20. Handing out an instance and stopping it again.  With a provider
    that accepts every call, [GetInstance] hands out the first node of
    the available bucket that has the image, and [StopInstance] on its
    identifier then succeeds when the instance is Running and the index
    knows it under that identifier.  Afterwards the used map is what it
    was before the two calls, and the instance is in no bucket: it is
    neither available nor in use until a later pass files it again.
    The provider saw AddTags, RemoveTags and StopInstance, in this
    order. *)
Theorem GetInstance_then_StopInstance (cl : client) c s r pre n post i imageId :
  bucket s (avavilable c) r (pre ++ n :: post) →
  (∀ x, x ∈ pre → image s x ≠ Some imageId) →
  insts s !! n = Some i →
  ecs.ImageId (Attrs i) = imageId →
  ecs.Status (Attrs i) = "Running" →
  instances c !! ecs.InstanceId (Attrs i) = Some n →
  used c !! ecs.InstanceId (Attrs i) = None →
  (∀ t q, cl t q = None) →
  let id := ecs.InstanceId (Attrs i) in
  ∃ c1 s1 c2 s2,
    GetInstance cl c imageId s = Ok (Some n, c1) s1
    ∧ used c1 !! id = Some n
    ∧ StopInstance cl c1 id s1 = Ok (None, c2) s2
    ∧ used c2 = used c ∧ instances c2 = instances c
    ∧ bucket s2 (avavilable c) r (pre ++ post)
    ∧ flist s2 n = Some None
    ∧ fattrs s2 n = Some (Attrs i)
    ∧ trace s2 = trace s ++ [ecs.AddTags id; ecs.RemoveTags id; ecs.StopInstance id true].
Proof.
  intros B Hpre Hi Himg Hst Hidx Hused Hcl id.
  assert (Hn : image s n = Some imageId).
  { unfold image, fattrs. rewrite Hi. cbn. by rewrite Himg. }
  destruct (Find_at s (avavilable c) r pre n post imageId B Hpre Hn)
    as (s0 & Hfind & B0 & Fl & Fr).
  assert (Ha0 : fattrs s0 n = Some (Attrs i)).
  { rewrite (frame_attrs _ _ _ _ Fr). unfold fattrs. by rewrite Hi. }
  assert (Hi0 : ∃ i0, insts s0 !! n = Some i0 ∧ Attrs i0 = Attrs i).
  { unfold fattrs in Ha0. destruct (insts s0 !! n) as [i0|]; [|done].
    cbn in Ha0. exists i0. split; congruence. }
  destruct Hi0 as (i0 & Hi0 & Hat).
  set (s1 := set_trace (λ t, t ++ [ecs.AddTags id]) s0).
  set (c1 := with_used (<[id := n]> (used c)) c).
  assert (Hget : GetInstance cl c imageId s = Ok (Some n, c1) s1).
  { unfold GetInstance. rewrite (bind_Ok _ _ _ _ _ Hfind).
    rewrite (bind_Ok _ _ _ _ _ (SetUsedTag_alive cl s0 n i0 Hi0)).
    rewrite Hcl, Hat. fold id. fold s1.
    assert (Hi1 : insts s1 !! n = Some i0) by done.
    rewrite (bind_Ok _ _ _ _ _ (load_alive _ _ _ Hi1)). by rewrite Hat. }
  assert (Hi1 : insts s1 !! n = Some i0) by done.
  set (s2 := set_trace (λ _, (trace s1 ++ [ecs.RemoveTags id]) ++ [ecs.StopInstance id true]) s1).
  assert (Hstop : Stop cl (Some n) s1 = Ok None s2).
  { rewrite (Stop_alive cl s1 n i0 Hi1). rewrite Hat, Hst, Hcl. done. }
  assert (Hi2 : insts s2 !! n = Some i0) by done.
  exists c1, s1, (with_used (delete id (used c1)) c1), s2. split_and!.
  - done.
  - unfold c1. cbn. by rewrite lookup_insert_eq.
  - unfold StopInstance.
    assert (instances c1 !! id = Some n) as -> by done.
    assert (used c1 !! id = Some n) as ->.
    { unfold c1. cbn. by rewrite lookup_insert_eq. }
    rewrite (bind_Ok _ _ _ _ _ Hstop).
    rewrite (bind_Ok _ _ _ _ _ (load_alive _ _ _ Hi2)). by rewrite Hat.
  - unfold c1. cbn. rewrite delete_insert_eq. by apply delete_id.
  - done.
  - unfold s2, s1. by do 2 apply bucket_set_trace.
  - exact Fl.
  - exact Ha0.
  - unfold s2, s1. cbn. rewrite (frame_trace _ _ _ _ Fr).
    by rewrite <- !app_assoc.
Qed.

Lemma GetInstance_then_StopInstance_witness :
  ∃ c1 s1 c2 s2,
    GetInstance ok_client sample_cluster "img-2" sample_store = Ok (Some 2%nat, c1) s1
    ∧ StopInstance ok_client c1 "i-b" s1 = Ok (None, c2) s2
    ∧ used c2 = used sample_cluster
    ∧ flist s2 2%nat = Some None.
Proof.
  destruct (GetInstance_then_StopInstance ok_client sample_cluster sample_store
              0%nat [1%nat] 2%nat [3%nat]
              (mkInstance (ecs.mkAttrs "i-b" "img-2" "Running") (ecs.mkDisk "d-b" "i-b")
                 (Some 3%nat) (Some 1%nat) (Some 0%nat)) "img-2")
    as (c1 & s1 & c2 & s2 & Hget & _ & Hstop & Hu & _ & _ & Hl & _).
  - exact sample_bucket.
  - intros x Hx. apply list_elem_of_singleton in Hx. subst x. vm_compute. discriminate.
  - vm_compute. reflexivity.
  - reflexivity.
  - reflexivity.
  - vm_compute. reflexivity.
  - vm_compute. reflexivity.
  - reflexivity.
  - exists c1, s1, c2, s2. split; [exact Hget|]. split; [exact Hstop|].
    split; [exact Hu|exact Hl].
Defined.

Lemma RefreshInstances_abort (cl : client) c il tl s e :
  (fetch il = inl e ∨ ∃ nodes, fetch il = inr nodes ∧ fetch tl = inl e) →
  RefreshInstances cl c il tl s = Ok (Some e, c) s.
Proof.
  unfold fetch, RefreshInstances. intros [H|(nodes & H1 & H2)].
  - destruct (first_page il) as [e1|p1]; [by injection H as ->|].
    destruct (next_pages p1 (more_pages il)) as [all [e1|]]; [by injection H as ->|done].
  - destruct (first_page il) as [e1|p1]; [done|].
    destruct (next_pages p1 (more_pages il)) as [all [e1|]]; [done|].
    destruct (first_page tl) as [e2|p2]; [by injection H2 as ->|].
    destruct (next_pages p2 (more_pages tl)) as [all2 [e2|]]; [by injection H2 as ->|done].
Qed.

Lemma RefreshDisks_only_disks c (dl : paged ecs.DiskItemType) :
  let c' := (RefreshDisks c dl).2 in
  starting c' = starting c ∧ avavilable c' = avavilable c ∧ stopping c' = stopping c
  ∧ used c' = used c ∧ instances c' = instances c.
Proof.
  unfold RefreshDisks. destruct (first_page dl) as [e|p1]; [done|].
  by destruct (next_pages p1 (more_pages dl)) as [all err].
Qed.

(** X21. A round of the background loop survives failed listings.  When
    the instance listing or the tag listing fails, one round of
    [refreshLoop] still returns normally: the error is dropped, no
    object, list or bucket of the store changes, no provider call other
    than the listings is made, and of the cluster only the cached disk
    list may differ.  It is the old list when the first disk request
    failed, and the listed disks when the disk listing went through. *)
Theorem refreshLoop_round_listing_error (cl : client) c dl il tl s e :
  (fetch il = inl e ∨ ∃ nodes, fetch il = inr nodes ∧ fetch tl = inl e) →
  ∃ c', refreshLoop_round cl c dl il tl s = Ok c' s
    ∧ starting c' = starting c ∧ avavilable c' = avavilable c ∧ stopping c' = stopping c
    ∧ used c' = used c ∧ instances c' = instances c
    ∧ (∀ e', first_page dl = inl e' → c' = c)
    ∧ (∀ ds, fetch dl = inr ds → disks c' = ds).
Proof.
  intros Herr. exists (RefreshDisks c dl).2.
  destruct (RefreshDisks_only_disks c dl) as (E1 & E2 & E3 & E4 & E5).
  split_and!; try done.
  - unfold refreshLoop_round. destruct (RefreshDisks c dl) as [err c'].
    by rewrite (bind_Ok _ _ _ _ _ (RefreshInstances_abort cl c' il tl s e Herr)).
  - intros e' He'. unfold RefreshDisks. by rewrite He'.
  - intros ds Hds. by rewrite (RefreshDisks_fetched c dl ds Hds).
Qed.

Lemma refreshLoop_round_listing_error_witness :
  ∃ c', refreshLoop_round ok_client sample_cluster disk_of_i1
          (mkPaged (inl "listing failed") []) no_tags sample_store = Ok c' sample_store
    ∧ disks c' = [ecs.mkDisk "d-1" "i-1"].
Proof.
  destruct (refreshLoop_round_listing_error ok_client sample_cluster disk_of_i1
              (mkPaged (inl "listing failed") []) no_tags sample_store "listing failed")
    as (c' & Hrun & _ & _ & _ & _ & _ & _ & Hd).
  - left. reflexivity.
  - exists c'. split; [exact Hrun|]. apply Hd. reflexivity.
Defined.





Lemma wf_trace ls idx s R X f :
  wf ls idx s R X → wf ls idx (set_trace f s) R X.
Proof.
  intros [W1 W2 W3 W4 W5 W6]. split; try done.
  intros l Hl. apply bucket_set_trace. by apply W1.
Qed.
































